(** * Snake and Ladder: the turn engine of [src/App.tsx]

    A shallow embedding of the game logic of the React component [App]:
    the two board tables, the bounded game log, the handlers [resetGame],
    [rollDice] and [movePlayer], and the coordinate helper
    [getCoordinates].

    Conventions of the embedding.
    - Squares, positions and die faces are JavaScript numbers that only
      ever hold small integers; they are modelled in [Z].
    - The component state (the six [useState] cells) is the record
      [GameState].  A handler is a closure of one render: it READS the
      state of that render (its snapshot) and WRITES by queueing
      updates, which React applies in order to the current state.  A
      handler is therefore a function of its snapshot that transforms
      the current store; snapshot and store coincide unless another
      handler ran in between (a reset during the 600 ms roll delay).
    - [Math.random] and [new Date()] inside [addLog] are drawn from an
      environment [env]; the store counts the draws made so far. *)

From stdpp Require Import gmap strings list fin_maps pretty.

Local Open Scope Z_scope.

(** ** Constants (App.tsx, lines 22-50) *)

Definition GRID_SIZE : Z := 10.
Definition TOTAL_SQUARES : Z := 100.

Definition SNAKES : gmap Z Z :=
  {[ 99 := 80; 95 := 75; 92 := 88; 89 := 68;
     64 := 60; 49 := 11; 46 := 25; 16 := 6 ]}.

Definition LADDERS : gmap Z Z :=
  {[ 2 := 38; 7 := 14; 8 := 31; 15 := 26; 21 := 42; 28 := 84;
     36 := 44; 51 := 67; 71 := 91; 78 := 98; 87 := 94 ]}.

(** [SNAKES[n]] used as a condition: [undefined] and [0] are falsy,
    every other number is truthy. *)
Definition truthy (o : option Z) : bool :=
  match o with
  | Some d => negb (d =? 0)
  | None => false
  end.

(** ** Data model (App.tsx, lines 62-86) *)

(** [icon] is a rendering node and is left out. *)
Record Player := mkPlayer {
  player_id : Z;
  name : string;
  position : Z;
  color : string
}.

Inductive LogType := Move | Snake | Ladder | Win | Info.

Record GameLogEntry := mkEntry {
  entry_id : string;
  message : string;
  type : LogType;
  timestamp : Z
}.

Inductive TransitionType := TSnake | TLadder.

Record GameState := mkState {
  players : list Player;
  currentPlayerIndex : nat;
  diceValue : option Z;
  isRolling : bool;
  gameLog : list GameLogEntry;
  winner : option Player
}.

#[global] Instance LogType_eq_dec : EqDecision LogType.
Proof. solve_decision. Defined.

(** What one call of [addLog] draws from the outside world: the random
    id and the clock reading. *)
Record Stamp := mkStamp { stamp_id : string; stamp_time : Z }.

(** The store a handler writes to: the component state and the number
    of stamps drawn so far. *)
Record World := mkWorld { state : GameState; draws : nat }.

(** ** Handlers: a state monad with uncaught exceptions

    [None] in the first component is an exception that was thrown (the
    [TypeError] of reading a property of [undefined]); the updates
    queued before it stay in the store. *)

Definition Handler (A : Type) : Type := World -> option A * World.

Definition ret {A} (a : A) : Handler A := fun w => (Some a, w).

Definition throw {A} : Handler A := fun w => (None, w).

Definition bind {A B} (m : Handler A) (k : A -> Handler B) : Handler B :=
  fun w =>
    match m w with
    | (Some a, w') => k a w'
    | (None, w') => (None, w')
    end.

#[global] Instance Handler_ret : MRet Handler := @ret.
#[global] Instance Handler_bind : MBind Handler := fun A B k m => bind m k.

(** The store after a handler ran. *)
Definition run {A} (h : Handler A) (w : World) : World := (h w).2.

Definition modify (f : GameState -> GameState) : Handler unit :=
  fun w => (Some tt, mkWorld (f (state w)) (draws w)).

(** *** The six state setters *)

Definition setPlayers (f : list Player -> list Player) : Handler unit :=
  modify (fun s => mkState (f (players s)) (currentPlayerIndex s) (diceValue s)
                           (isRolling s) (gameLog s) (winner s)).

Definition setCurrentPlayerIndex (i : nat) : Handler unit :=
  modify (fun s => mkState (players s) i (diceValue s)
                           (isRolling s) (gameLog s) (winner s)).

Definition setDiceValue (v : option Z) : Handler unit :=
  modify (fun s => mkState (players s) (currentPlayerIndex s) v
                           (isRolling s) (gameLog s) (winner s)).

Definition setIsRolling (b : bool) : Handler unit :=
  modify (fun s => mkState (players s) (currentPlayerIndex s) (diceValue s)
                           b (gameLog s) (winner s)).

Definition setGameLog (f : list GameLogEntry -> list GameLogEntry) : Handler unit :=
  modify (fun s => mkState (players s) (currentPlayerIndex s) (diceValue s)
                           (isRolling s) (f (gameLog s)) (winner s)).

Definition setWinner (p : option Player) : Handler unit :=
  modify (fun s => mkState (players s) (currentPlayerIndex s) (diceValue s)
                           (isRolling s) (gameLog s) p).

(** [{ ...p, position: q }] *)
Definition withPosition (q : Z) (p : Player) : Player :=
  mkPlayer (player_id p) (name p) q (color p).

(** [players[i]]; reading [.position] or [.name] of the [undefined] an
    index out of range gives throws. *)
Definition playerAt (ps : list Player) (i : nat) : Handler Player :=
  match ps !! i with
  | Some p => ret p
  | None => throw
  end.

(** ** The game log (App.tsx, lines 89-94) *)

(** The updater [prev => [entry, ...prev.slice(0, 49)]]. *)
Definition pushEntry (e : GameLogEntry) (prev : list GameLogEntry) : list GameLogEntry :=
  e :: take 49 prev.

(** ** The snake and ladder check of [movePlayer] (App.tsx, lines 136-146)

    From the square [newPosition], the values of [finalPosition] and
    [transitionType] after the [if ... else if].  The check is written
    once, over the two tables it reads, so that the order of its two
    tests can be told apart; the component runs it on [SNAKES] and
    [LADDERS]. *)
Definition transitionOn (snakes ladders : gmap Z Z) (newPosition : Z)
  : Z * option TransitionType :=
  if truthy (snakes !! newPosition) then
    (default 0 (snakes !! newPosition), Some TSnake)
  else if truthy (ladders !! newPosition) then
    (default 0 (ladders !! newPosition), Some TLadder)
  else (newPosition, None).

Definition transition (newPosition : Z) : Z * option TransitionType :=
  transitionOn SNAKES LADDERS newPosition.

Section Engine.

(** The [k]-th draw of a random id and a clock reading. *)
Variable env : nat -> Stamp.

(** One draw: [Math.random().toString(36).substr(2, 9)] and [new Date()]. *)
Definition draw : Handler Stamp :=
  fun w => (Some (env (draws w)), mkWorld (state w) (S (draws w))).

Definition addLog (msg : string) (ty : LogType) : Handler unit :=
  st ← draw;
  setGameLog (pushEntry (mkEntry (stamp_id st) msg ty (stamp_time st))).

(** ** State before and after mounting (App.tsx, lines 78-98) *)

Definition initialState : GameState :=
  mkState [ mkPlayer 1 "Player 1" 1 "#8b5cf6";
            mkPlayer 2 "Player 2" 1 "#f59e0b" ]
          0%nat None false [] None.

Definition mounted : World :=
  run (addLog "Game started! Player 1 goes first." Info) (mkWorld initialState 0).

(** ** resetGame (App.tsx, lines 100-107) *)

Definition resetGame : Handler unit :=
  setPlayers (map (withPosition 1)) ;;
  setCurrentPlayerIndex 0%nat ;;
  setDiceValue None ;;
  setWinner None ;;
  setGameLog (fun _ => []) ;;
  addLog "Game reset! Player 1 goes first." Info.

(** ** movePlayer (App.tsx, lines 125-165)

    [snap] is the render the closure belongs to: [players] and
    [currentPlayerIndex] are read from it. *)

Definition movePlayer (snap : GameState) (steps : Z) : Handler unit :=
  currentPlayer ← playerAt (players snap) (currentPlayerIndex snap);
  let tentative := position currentPlayer + steps in
  addLog (name currentPlayer +:+ " rolled a " +:+ pretty steps +:+ ".") Move ;;
  newPosition ←
    (if TOTAL_SQUARES <? tentative then
       addLog (name currentPlayer +:+ " needs exactly "
                 +:+ pretty (TOTAL_SQUARES - position currentPlayer)
                 +:+ " to win.") Info ;;
       ret (position currentPlayer)
     else ret tentative);
  let '(finalPosition, transitionType) := transition newPosition in
  setPlayers (imap (fun i p =>
    if decide (i = currentPlayerIndex snap) then withPosition finalPosition p else p)) ;;
  match transitionType with
  | Some TSnake =>
      addLog ("Oh no! " +:+ name currentPlayer +:+ " hit a snake at "
                +:+ pretty newPosition +:+ " and fell to "
                +:+ pretty finalPosition +:+ "!") Snake
  | Some TLadder =>
      addLog ("Great! " +:+ name currentPlayer +:+ " climbed a ladder at "
                +:+ pretty newPosition +:+ " to "
                +:+ pretty finalPosition +:+ "!") Ladder
  | None => ret tt
  end ;;
  if finalPosition =? TOTAL_SQUARES then
    setWinner (Some currentPlayer) ;;
    addLog ("🎉 " +:+ name currentPlayer +:+ " wins the game!") Win
  else
    setCurrentPlayerIndex
      ((currentPlayerIndex snap + 1) `mod` length (players snap))%nat.

(** ** rollDice (App.tsx, lines 109-123)

    The async function is cut at its [await].  [rollDice_click] is
    the part that runs on the click and tells whether the function
    went on to wait; [rollDice_resume] is the part that runs when
    the timer fires, with the die face [roll] that was drawn. *)

Definition rollDice_click (snap : GameState) : Handler bool :=
  if isRolling snap || bool_decide (is_Some (winner snap)) then ret false
  else
    setIsRolling true ;;
    setDiceValue None ;;
    ret true.

Definition rollDice_resume (snap : GameState) (roll : Z) : Handler unit :=
  setDiceValue (Some roll) ;;
  setIsRolling false ;;
  movePlayer snap roll.

(** A roll from click to resolution with nothing in between: the
    snapshot is the state at the click. *)
Definition rollDice (roll : Z) (w : World) : World :=
  let snap := state w in
  match rollDice_click snap w with
  | (Some true, w') => run (rollDice_resume snap roll) w'
  | (_, w') => w'
  end.

End Engine.

(** ** getCoordinates (App.tsx, lines 172-182)

    [Math.floor(a / b)] on integers is floor division, [%] is the
    remainder that takes the sign of the dividend. *)

Definition getCoordinates (square : Z) : Z * Z :=
  let zeroIndexed := square - 1 in
  let row := zeroIndexed `div` GRID_SIZE in
  let col := zeroIndexed `rem` GRID_SIZE in
  let x := if row `rem` 2 =? 0 then col else (GRID_SIZE - 1) - col in
  let y := (GRID_SIZE - 1) - row in
  (x, y).

(** The board's own numbering of its cells (App.tsx, lines 215-220):
    the square drawn in the [i]-th cell of the grid, cells counted
    row by row from the top left. *)
Definition cellNumber (i : Z) : Z :=
  let vRow := i `div` 10 in
  let vCol := i `rem` 10 in
  let row := 9 - vRow in
  let col := if row `rem` 2 =? 0 then vCol else 9 - vCol in
  row * 10 + col + 1.

(** ** The component as an event loop

    Between two events the component holds its store and, while a roll
    waits for its timer, the snapshot that roll closed over.  The
    events are the two buttons and the timer of a waiting roll. *)

Record App := mkApp { world : World; pending : option GameState }.

Inductive Event :=
  | ClickRoll
  | ClickReset
  | TimerDone (roll : Z).

Definition dispatch (env : nat -> Stamp) (a : App) (e : Event) : App :=
  match e with
  | ClickRoll =>
      let snap := state (world a) in
      match rollDice_click snap (world a) with
      | (Some true, w') => mkApp w' (Some snap)
      | (_, w') => mkApp w' (pending a)
      end
  | ClickReset => mkApp (run (resetGame env) (world a)) (pending a)
  | TimerDone roll =>
      match pending a with
      | Some snap => mkApp (run (rollDice_resume env snap roll) (world a)) None
      | None => a
      end
  end.

(** [Math.floor(Math.random() * 6) + 1] is one of the six faces. *)
Definition validEvent (e : Event) : Prop :=
  match e with
  | TimerDone roll => 1 <= roll <= 6
  | _ => True
  end.

Inductive reachable (env : nat -> Stamp) : App -> Prop :=
  | reach_mounted : reachable env (mkApp (mounted env) None)
  | reach_dispatch a e :
      reachable env a -> validEvent e -> reachable env (dispatch env a e).

(** ** The view (App.tsx, lines 215-252 and 276-475)

    The expressions of the rendered tree that read the state or the
    board; each is named after what it draws. *)

(** The stronger of the two cell tints, [bg-[#334155]/40] rather than
    [bg-[#334155]/20] (line 230):
    [(Math.floor((num-1)/10) + (num-1)%10) % 2 === 0]. *)
Definition cellDark (num : Z) : bool :=
  ((num - 1) `div` 10 + (num - 1) `rem` 10) `rem` 2 =? 0.

(** The snake and ladder marks of a cell (lines 222-249): whether the
    mark is drawn, and the number shown after [-] or [+]. *)
Definition snakeMark (num : Z) : option Z :=
  if truthy (SNAKES !! num) then Some (num - default 0 (SNAKES !! num)) else None.

Definition ladderMark (num : Z) : option Z :=
  if truthy (LADDERS !! num) then Some (default 0 (LADDERS !! num) - num) else None.

(** [x * 10 + 5] and [y * 10 + 5]: the percentages at which the
    ladder lines and the tokens are anchored (lines 282-283, 327-328). *)
Definition cellCentre (c : Z * Z) : Z * Z := (c.1 * 10 + 5, c.2 * 10 + 5).

(** The line of a ladder (lines 276-283): [(x1, y1)] and [(x2, y2)],
    in percent.  [parseInt] gives back the key the entry was listed
    under.  The path of a snake (line 305) writes its numbers without
    a unit and is not modelled. *)
Definition ladderLine (start finish : Z) : (Z * Z) * (Z * Z) :=
  (cellCentre (getCoordinates start), cellCentre (getCoordinates finish)).

(** [left] and [top] of a player's token (lines 321-329). *)
Definition tokenPlace (player : Player) : Z * Z :=
  cellCentre (getCoordinates (position player)).

(** The dot on a token that shares its square (line 345):
    [players.some(p => p.id !== player.id && p.position === player.position)]. *)
Definition overlapBadge (ps : list Player) (player : Player) : bool :=
  existsb (fun p => negb (player_id p =? player_id player)
                    && (position p =? position player)) ps.

(** The turn card (lines 368-374): colour, name and square of
    [players[currentPlayerIndex]]; [None] when the index names no
    player and rendering throws. *)
Definition turnCard (g : GameState) : option (string * string * Z) :=
  p ← players g !! currentPlayerIndex g;
  Some (color p, name p, position p).

(** [diceValue || '-'] (line 379). *)
Definition diceText (g : GameState) : string :=
  match diceValue g with
  | Some v => if v =? 0 then "-" else pretty v
  | None => "-"
  end.

(** The roll button (lines 383-395): [disabled] and the label. *)
Definition rollDisabled (g : GameState) : bool :=
  isRolling g || bool_decide (is_Some (winner g)).

Definition rollLabel (g : GameState) : string :=
  if isRolling g then "ROLLING..."
  else if bool_decide (is_Some (winner g)) then "GAME OVER"
  else "ROLL DICE".

(** The winner modal (lines 447-466) is drawn when [winner] is set and
    shows the winner's name. *)
Definition winnerModal (g : GameState) : option string := name <$> winner g.

(** * Vocabulary of the properties *)

(** A square on which a token can rest: on the board and the source of
    no snake and no ladder. *)
Definition restingSquare (q : Z) : Prop :=
  1 <= q <= TOTAL_SQUARES /\ SNAKES !! q = None /\ LADDERS !! q = None.

(** The log entry made from the [k]-th stamp. *)
Definition stamped (env : nat -> Stamp) (k : nat) (msg : string) (ty : LogType) : GameLogEntry :=
  mkEntry (stamp_id (env k)) msg ty (stamp_time (env k)).

(** A fixed environment for the concrete runs below. *)
Definition sampleEnv : nat -> Stamp :=
  fun k => mkStamp (pretty k) (Z.of_nat k).

(** Everything the proofs below use about one snake: where it starts,
    that it goes down, that its head is no ladder foot, and that its
    tail is a square to rest on below 100. *)
Definition snakeOk (k d : Z) : Prop :=
  2 <= k <= 99 /\ 1 <= d < k /\ LADDERS !! k = None
  /\ SNAKES !! d = None /\ LADDERS !! d = None.

Definition ladderOk (k d : Z) : Prop :=
  2 <= k <= 99 /\ k < d <= 99 /\ SNAKES !! k = None
  /\ SNAKES !! d = None /\ LADDERS !! d = None.

#[local] Instance snakeOk_dec k d : Decision (snakeOk k d).
Proof. unfold snakeOk. apply _. Defined.

#[local] Instance ladderOk_dec k d : Decision (ladderOk k d).
Proof. unfold ladderOk. apply _. Defined.

(** Unfold a handler down to the store it builds. *)
Ltac handler_unfold :=
  unfold movePlayer, resetGame, rollDice, rollDice_click, rollDice_resume,
    addLog, draw, playerAt, setPlayers, setCurrentPlayerIndex, setDiceValue,
    setIsRolling, setGameLog, setWinner, modify, run,
    mbind, mret, Handler_bind, Handler_ret, bind, ret, throw.

(** A run of [addLog] calls, one per request, in the order of the list. *)
Definition addLogs (env : nat -> Stamp) (reqs : list (string * LogType)) : Handler unit :=
  foldr (fun r h => addLog env r.1 r.2 ;; h) (ret tt) reqs.

(** A store whose log is full: fifty more entries after mounting. *)
Definition fullWorld : World :=
  run (addLogs sampleEnv (replicate 50 ("Player 1 rolled a 1.", Move)))
      (mounted sampleEnv).

(** The log after the entries [es] were appended, first to last. *)
Definition appended (lg es : list GameLogEntry) : list GameLogEntry :=
  foldl (fun l e => pushEntry e l) lg es.

(** The square [movePlayer] holds in [newPosition] when it reaches the
    snake and ladder check: the square rolled to, or the old square
    when that one is off the board. *)
Definition landing (pos steps : Z) : Z :=
  if TOTAL_SQUARES <? pos + steps then pos else pos + steps.

(** The square written to the active player. *)
Definition finalSquare (pos steps : Z) : Z := (transition (landing pos steps)).1.

(** The types of the entries one resolution appends, in order. *)
Definition resolutionTypes (pos steps : Z) : list LogType :=
  [Move]
  ++ (if TOTAL_SQUARES <? pos + steps then [Info] else [])
  ++ match (transition (landing pos steps)).2 with
     | Some TSnake => [Snake]
     | Some TLadder => [Ladder]
     | None => []
     end
  ++ (if finalSquare pos steps =? TOTAL_SQUARES then [Win] else []).

(** What one resolution asks [addLog] for, in the order of the calls,
    when [p] is the active player of the snapshot: the messages and
    their types. *)
Definition resolutionRequests (p : Player) (steps : Z) : list (string * LogType) :=
  let newPosition := landing (position p) steps in
  let finalPosition := finalSquare (position p) steps in
  [(name p +:+ " rolled a " +:+ pretty steps +:+ ".", Move)]
  ++ (if TOTAL_SQUARES <? position p + steps
      then [(name p +:+ " needs exactly "
               +:+ pretty (TOTAL_SQUARES - position p) +:+ " to win.", Info)]
      else [])
  ++ match (transition newPosition).2 with
     | Some TSnake =>
         [("Oh no! " +:+ name p +:+ " hit a snake at " +:+ pretty newPosition
             +:+ " and fell to " +:+ pretty finalPosition +:+ "!", Snake)]
     | Some TLadder =>
         [("Great! " +:+ name p +:+ " climbed a ladder at " +:+ pretty newPosition
             +:+ " to " +:+ pretty finalPosition +:+ "!", Ladder)]
     | None => []
     end
  ++ (if finalPosition =? TOTAL_SQUARES
      then [("🎉 " +:+ name p +:+ " wins the game!", Win)]
      else []).

(** The entries these requests become when [k] stamps were drawn
    before: the [i]-th request takes the stamp [i + k]. *)
Definition resolutionEntries (env : nat -> Stamp) (k : nat) (p : Player) (steps : Z)
  : list GameLogEntry :=
  imap (fun i r => stamped env (i + k) r.1 r.2) (resolutionRequests p steps).

(** A store of a game under way: the first player on 98, to move. *)
Definition nearTheEnd : World :=
  mkWorld (mkState [ mkPlayer 1 "Player 1" 98 "#8b5cf6";
                     mkPlayer 2 "Player 2" 1 "#f59e0b" ]
                   0%nat (Some 3) false [] None) 0.

(** A store in which a roll is waiting for its timer. *)
Definition midRoll : World :=
  mkWorld (mkState [ mkPlayer 1 "Player 1" 14 "#8b5cf6";
                     mkPlayer 2 "Player 2" 1 "#f59e0b" ]
                   1%nat None true [] None) 0.

(** A store of a game under way: the first player on 95, to move. *)
Definition fiveToGo : World :=
  mkWorld (mkState [ mkPlayer 1 "Player 1" 95 "#8b5cf6";
                     mkPlayer 2 "Player 2" 44 "#f59e0b" ]
                   0%nat (Some 2) false [] None) 0.

(** What holds of every store the game reaches: two players, a valid
    active index, every token on a square to rest on, and a token on
    100 only once the winner is recorded. *)
Definition boardOk (g : GameState) : Prop :=
  length (players g) = 2%nat
  /\ (currentPlayerIndex g < 2)%nat
  /\ Forall (fun p => restingSquare (position p)) (players g)
  /\ (winner g = None -> Forall (fun p => position p <> 100) (players g)).

(** ... and of the snapshot of a waiting roll, which was taken with no
    winner recorded. *)
Definition appOk (a : App) : Prop :=
  boardOk (state (world a))
  /\ match pending a with
     | Some snap => boardOk snap /\ winner snap = None
     | None => True
     end.

(** The component after a first roll of 6 and a second roll, by the
    other player, of 1. *)
Definition twoRollsIn : App :=
  foldl (dispatch sampleEnv) (mkApp (mounted sampleEnv) None)
        [ClickRoll; TimerDone 6; ClickRoll; TimerDone 1].

(** The component after the first click on the roll button. *)
Definition firstRollWaiting : App :=
  dispatch sampleEnv (mkApp (mounted sampleEnv) None) ClickRoll.

(** The players without their positions: who plays, in which order. *)
Definition roster (g : GameState) : list Player := map (withPosition 0) (players g).

(** What holds, beside [appOk], of every state the component reaches:
    the roster is the initial one, the rolling flag is up exactly
    while a roll waits, the dice value is cleared during a roll and
    otherwise a face of the die, the log is never empty nor over its
    capacity, a roll only waits while nobody has won, and a recorded
    winner stands alone on square 100, which they reached by an exact
    roll. *)
Definition viewOk (a : App) : Prop :=
  let g := state (world a) in
  roster g = roster initialState
  /\ isRolling g = bool_decide (is_Some (pending a))
  /\ (isRolling g = true -> diceValue g = None)
  /\ (forall v, diceValue g = Some v -> 1 <= v <= 6)
  /\ (1 <= length (gameLog g) <= 50)%nat
  /\ (forall snap, pending a = Some snap ->
        roster snap = roster initialState /\ winner g = None)
  /\ (forall wp, winner g = Some wp ->
        exists i q,
          players g !! i = Some q /\ position q = 100
          /\ withPosition 0 q = withPosition 0 wp
          /\ 94 <= position wp <= 99
          /\ forall j q', players g !! j = Some q' -> position q' = 100 -> j = i).

(** A game played to its end: the first player rolls 1, 6, 6, 1, 4, 6
    and 3 (by the ladders 2-38, 51-67 and 71-91 to square 100), the
    second player rolls 1 in between. *)
Definition winningGame : list Event :=
  [ClickRoll; TimerDone 1; ClickRoll; TimerDone 1;
   ClickRoll; TimerDone 6; ClickRoll; TimerDone 1;
   ClickRoll; TimerDone 6; ClickRoll; TimerDone 1;
   ClickRoll; TimerDone 1; ClickRoll; TimerDone 1;
   ClickRoll; TimerDone 4; ClickRoll; TimerDone 1;
   ClickRoll; TimerDone 6; ClickRoll; TimerDone 1;
   ClickRoll; TimerDone 3].

Definition wonGame : App :=
  foldl (dispatch sampleEnv) (mkApp (mounted sampleEnv) None) winningGame.

(** The same game one roll before its end, the first player on 97
    and to move, after a click on the roll button. *)
Definition lastRollWaiting : App :=
  foldl (dispatch sampleEnv) (mkApp (mounted sampleEnv) None)
        (take 24 winningGame ++ [ClickRoll]).

(** The same game one roll before its end, the first player on 97
    and to move; then a click on the roll button and, while that roll
    waits, a click on the reset button. *)
Definition resetWhileRolling : App :=
  foldl (dispatch sampleEnv) (mkApp (mounted sampleEnv) None)
        (take 24 winningGame ++ [ClickRoll; ClickReset]).

(** The second roll of a game, waiting for its timer. *)
Definition secondRollWaiting : App :=
  foldl (dispatch sampleEnv) (mkApp (mounted sampleEnv) None)
        [ClickRoll; TimerDone 6; ClickRoll].

(** * Properties *)

(** ** The board tables *)

Lemma snakes_ok : map_Forall snakeOk SNAKES.
Proof. apply (bool_decide_unpack _). vm_compute. reflexivity. Qed.

Lemma ladders_ok : map_Forall ladderOk LADDERS.
Proof. apply (bool_decide_unpack _). vm_compute. reflexivity. Qed.

Lemma snake_lookup k d : SNAKES !! k = Some d -> snakeOk k d.
Proof. apply snakes_ok. Qed.

Lemma ladder_lookup k d : LADDERS !! k = Some d -> ladderOk k d.
Proof. apply ladders_ok. Qed.

(** On these tables the truthiness test is the membership test. *)
Lemma truthy_snake n : truthy (SNAKES !! n) = bool_decide (is_Some (SNAKES !! n)).
Proof.
  destruct (SNAKES !! n) as [d|] eqn:E; simpl.
  - apply snake_lookup in E. destruct E as (_ & Hd & _).
    destruct (Z.eqb_spec d 0); [lia | reflexivity].
  - reflexivity.
Qed.

Lemma truthy_ladder n : truthy (LADDERS !! n) = bool_decide (is_Some (LADDERS !! n)).
Proof.
  destruct (LADDERS !! n) as [d|] eqn:E; simpl.
  - apply ladder_lookup in E. destruct E as (Hk & Hd & _).
    destruct (Z.eqb_spec d 0); [lia | reflexivity].
  - reflexivity.
Qed.

Lemma transition_snake n d : SNAKES !! n = Some d -> transition n = (d, Some TSnake).
Proof.
  intros E. unfold transition, transitionOn. rewrite truthy_snake, E. reflexivity.
Qed.

Lemma transition_ladder n d :
  SNAKES !! n = None -> LADDERS !! n = Some d -> transition n = (d, Some TLadder).
Proof.
  intros E1 E2. unfold transition, transitionOn.
  rewrite truthy_snake, truthy_ladder, E1, E2.
  reflexivity.
Qed.

Lemma transition_none n :
  SNAKES !! n = None -> LADDERS !! n = None -> transition n = (n, None).
Proof. intros E1 E2. unfold transition, transitionOn. rewrite E1, E2. reflexivity. Qed.

(** C7: every key of the snake map and of the ladder map lies in
    [2,99], so squares 1 and 100 start no transition; a snake leads to
    a strictly smaller square, a ladder to a strictly larger one; and
    no square is a key of both maps. *)
Theorem board_tables_wellformed :
  (forall k d : Z, SNAKES !! k = Some d -> 2 <= k <= 99 /\ d < k)
  /\ (forall k d : Z, LADDERS !! k = Some d -> 2 <= k <= 99 /\ k < d)
  /\ (forall k : Z, is_Some (SNAKES !! k) -> is_Some (LADDERS !! k) -> False)
  /\ SNAKES !! 1 = None /\ LADDERS !! 1 = None
  /\ SNAKES !! 100 = None /\ LADDERS !! 100 = None.
Proof.
  split; [|split; [|split]].
  - intros k d E. apply snake_lookup in E. unfold snakeOk in E. lia.
  - intros k d E. apply ladder_lookup in E. unfold ladderOk in E. lia.
  - intros k [d E] [d' E']. apply snake_lookup in E.
    destruct E as (_ & _ & E & _). congruence.
  - repeat split; vm_compute; reflexivity.
Qed.

Lemma board_tables_wellformed_witness :
  (2 <= 99 <= 99 /\ 80 < 99) /\ (2 <= 78 <= 99 /\ 78 < 98).
Proof.
  destruct board_tables_wellformed as (Hs & Hl & _).
  split.
  - apply (Hs 99 80). vm_compute. reflexivity.
  - apply (Hl 78 98). vm_compute. reflexivity.
Defined.

(** ** The coordinate function *)

(** The test [row % 2 === 0] on a row index of the grid. *)
Lemma row_parity row : 0 <= row <= 9 -> (row `rem` 2 =? 0) = Z.even row.
Proof.
  intros Hrow.
  assert (Hcases : row = 0 \/ row = 1 \/ row = 2 \/ row = 3 \/ row = 4
                   \/ row = 5 \/ row = 6 \/ row = 7 \/ row = 8 \/ row = 9) by lia.
  repeat (destruct Hcases as [-> | Hcases]; [reflexivity |]).
  subst row. reflexivity.
Qed.

(** The square that is [col] steps into the [row]-th row, rows counted
    from the bottom: rows of even index run left to right, rows of odd
    index right to left, and [y] counts rows from the top of the grid. *)
Lemma getCoordinates_row_col row col :
  0 <= row <= 9 -> 0 <= col <= 9 ->
  getCoordinates (row * 10 + col + 1)
  = (if Z.even row then col else 9 - col, 9 - row).
Proof.
  intros Hrow Hcol. unfold getCoordinates, GRID_SIZE.
  replace (row * 10 + col + 1 - 1) with (row * 10 + col) by lia.
  assert (Hdiv : (row * 10 + col) `div` 10 = row)
    by (Z.to_euclidean_division_equations; lia).
  assert (Hrem : (row * 10 + col) `rem` 10 = col)
    by (Z.to_euclidean_division_equations; lia).
  rewrite Hdiv, Hrem.
  rewrite (row_parity row Hrow). reflexivity.
Qed.

(** Every square of the board is some step of some row. *)
Lemma square_row_col s :
  1 <= s <= 100 ->
  exists row col, 0 <= row <= 9 /\ 0 <= col <= 9 /\ s = row * 10 + col + 1.
Proof.
  intros Hs. exists ((s - 1) `div` 10), ((s - 1) `mod` 10).
  Z.to_euclidean_division_equations. lia.
Qed.

(** The numbering of the drawn grid undoes [getCoordinates]. *)
Lemma cellNumber_getCoordinates s :
  1 <= s <= 100 ->
  cellNumber ((getCoordinates s).2 * 10 + (getCoordinates s).1) = s.
Proof.
  intros Hs. destruct (square_row_col s Hs) as (row & col & Hrow & Hcol & ->).
  rewrite getCoordinates_row_col by assumption. cbn [fst snd].
  unfold cellNumber.
  set (x := if Z.even row then col else 9 - col).
  assert (Hx : 0 <= x <= 9) by (subst x; destruct (Z.even row); lia).
  assert (Hdiv : ((9 - row) * 10 + x) `div` 10 = 9 - row)
    by (Z.to_euclidean_division_equations; lia).
  assert (Hrem : ((9 - row) * 10 + x) `rem` 10 = x)
    by (Z.to_euclidean_division_equations; lia).
  rewrite Hdiv, Hrem. replace (9 - (9 - row)) with row by lia.
  rewrite (row_parity row Hrow). subst x.
  destruct (Z.even row); lia.
Qed.

(** C6: [getCoordinates] is a bijection from the squares 1..100 onto
    the cells of the 10x10 grid, in serpentine order (the row of index
    [row] from the bottom is drawn at height [9 - row] from the top and
    runs left to right when [row] is even, right to left when it is
    odd), with square 1 in the bottom left corner and square 100 in the
    top left one. *)
Theorem getCoordinates_bijection :
  (forall s, 1 <= s <= 100 ->
     0 <= (getCoordinates s).1 <= 9 /\ 0 <= (getCoordinates s).2 <= 9)
  /\ (forall s s', 1 <= s <= 100 -> 1 <= s' <= 100 ->
        getCoordinates s = getCoordinates s' -> s = s')
  /\ (forall x y, 0 <= x <= 9 -> 0 <= y <= 9 ->
        exists s, 1 <= s <= 100 /\ getCoordinates s = (x, y))
  /\ (forall row col, 0 <= row <= 9 -> 0 <= col <= 9 ->
        getCoordinates (row * 10 + col + 1)
        = (if Z.even row then col else 9 - col, 9 - row))
  /\ getCoordinates 1 = (0, 9)
  /\ getCoordinates 100 = (0, 0).
Proof.
  split; [|split; [|split; [|split; [|split]]]].
  - intros s Hs. destruct (square_row_col s Hs) as (row & col & Hrow & Hcol & ->).
    rewrite getCoordinates_row_col by assumption. cbn [fst snd].
    destruct (Z.even row); lia.
  - intros s s' Hs Hs' E.
    rewrite <- (cellNumber_getCoordinates s Hs), <- (cellNumber_getCoordinates s' Hs').
    rewrite E. reflexivity.
  - intros x y Hx Hy.
    exists ((9 - y) * 10 + (if Z.even (9 - y) then x else 9 - x) + 1).
    split; [destruct (Z.even (9 - y)); lia |].
    rewrite getCoordinates_row_col by (destruct (Z.even (9 - y)); lia).
    destruct (Z.even (9 - y)); f_equal; lia.
  - apply getCoordinates_row_col.
  - reflexivity.
  - reflexivity.
Qed.

Lemma getCoordinates_bijection_witness :
  (0 <= (getCoordinates 37).1 <= 9 /\ 0 <= (getCoordinates 37).2 <= 9)
  /\ getCoordinates (1 * 10 + 0 + 1) = (9, 8)
  /\ exists s, 1 <= s <= 100 /\ getCoordinates s = (9, 8).
Proof.
  destruct getCoordinates_bijection as (Hrange & _ & Hsurj & Hrow & _).
  split; [apply (Hrange 37); lia |].
  split; [apply (Hrow 1 0); lia |].
  apply (Hsurj 9 8); lia.
Defined.

(** ** The game log *)

Lemma pushEntry_length e lg : length (pushEntry e lg) = S (Nat.min 49 (length lg)).
Proof. unfold pushEntry. cbn [length]. rewrite length_take. reflexivity. Qed.

Lemma addLog_gameLog env msg ty w :
  gameLog (state (run (addLog env msg ty) w))
  = pushEntry (stamped env (draws w) msg ty) (gameLog (state w)).
Proof. reflexivity. Qed.

Lemma addLogs_length env reqs : forall w,
  (length (gameLog (state w)) <= 50)%nat ->
  (length (gameLog (state (run (addLogs env reqs) w))) <= 50)%nat.
Proof.
  induction reqs as [|[msg ty] reqs IH]; intros w Hw.
  - exact Hw.
  - change (run (addLogs env ((msg, ty) :: reqs)) w)
      with (run (addLogs env reqs) (run (addLog env msg ty) w)).
    apply IH. rewrite addLog_gameLog, pushEntry_length. lia.
Qed.

(** One append is enough to bring any log within the capacity. *)
Lemma addLog_length env msg ty w :
  (length (gameLog (state (run (addLog env msg ty) w))) <= 50)%nat.
Proof. rewrite addLog_gameLog, pushEntry_length. lia. Qed.

(** C5: after one or more appends the log holds at most 50 entries,
    whatever it held before, and a log of at most 50 entries stays so
    under any number of appends; an append to a full log drops exactly
    its last (oldest) entry and keeps the others in their order behind
    the new one; an append to a log that is not full drops nothing. *)
Theorem gameLog_capacity env (reqs : list (string * LogType)) msg ty w :
  (length (gameLog (state (run (addLogs env ((msg, ty) :: reqs)) w))) <= 50)%nat
  /\ ((length (gameLog (state w)) <= 50)%nat ->
      (length (gameLog (state (run (addLogs env reqs) w))) <= 50)%nat)
  /\ (length (gameLog (state w)) = 50%nat ->
      exists kept oldest,
        gameLog (state w) = kept ++ [oldest]
        /\ gameLog (state (run (addLog env msg ty) w))
           = stamped env (draws w) msg ty :: kept)
  /\ ((length (gameLog (state w)) < 50)%nat ->
      gameLog (state (run (addLog env msg ty) w))
      = stamped env (draws w) msg ty :: gameLog (state w)).
Proof.
  split; [| split; [| split]].
  - change (run (addLogs env ((msg, ty) :: reqs)) w)
      with (run (addLogs env reqs) (run (addLog env msg ty) w)).
    apply addLogs_length, addLog_length.
  - apply addLogs_length.
  - intros Hfull. rewrite addLog_gameLog. unfold pushEntry.
    destruct (gameLog (state w)) as [|e0 lg] eqn:E using rev_ind.
    + discriminate Hfull.
    + rewrite length_app in Hfull. cbn in Hfull.
      exists lg, e0. split; [reflexivity |].
      rewrite take_app_length' by lia. reflexivity.
  - intros Hroom. rewrite addLog_gameLog. unfold pushEntry.
    rewrite take_ge by lia. reflexivity.
Qed.

Lemma gameLog_capacity_witness :
  length (gameLog (state fullWorld)) = 50%nat
  /\ (length (gameLog (state (run (addLogs sampleEnv [("a", Move); ("b", Info)])
                                 fullWorld))) <= 50)%nat
  /\ exists kept oldest,
       gameLog (state fullWorld) = kept ++ [oldest]
       /\ gameLog (state (run (addLog sampleEnv "c" Win) fullWorld))
          = stamped sampleEnv (draws fullWorld) "c" Win :: kept.
Proof.
  assert (Hfull : length (gameLog (state fullWorld)) = 50%nat)
    by (vm_compute; reflexivity).
  destruct (gameLog_capacity sampleEnv [("b", Info)] "a" Move fullWorld)
    as (Hbound & _).
  destruct (gameLog_capacity sampleEnv [] "c" Win fullWorld)
    as (_ & _ & Hevict & _).
  split; [exact Hfull |]. split; [exact Hbound |]. exact (Hevict Hfull).
Defined.

(** ** Reset *)

(** C8: from any store, [resetGame] runs to its end and leaves every
    player on square 1 (the players themselves are the same), no
    winner, no dice value, the first player active, and a log of
    exactly one entry, of type info. *)
Theorem resetGame_fresh env w :
  (resetGame env w).1 = Some tt
  /\ players (state (run (resetGame env) w)) = map (withPosition 1) (players (state w))
  /\ Forall (fun p => position p = 1) (players (state (run (resetGame env) w)))
  /\ winner (state (run (resetGame env) w)) = None
  /\ diceValue (state (run (resetGame env) w)) = None
  /\ currentPlayerIndex (state (run (resetGame env) w)) = 0%nat
  /\ gameLog (state (run (resetGame env) w))
     = [stamped env (draws w) "Game reset! Player 1 goes first." Info].
Proof.
  repeat split; try reflexivity.
  change (players (state (run (resetGame env) w)))
    with (map (withPosition 1) (players (state w))).
  apply Forall_forall. intros p Hp.
  apply list_elem_of_fmap in Hp. destruct Hp as (q & -> & _). reflexivity.
Qed.

(** ** One resolution of a roll *)

(** What [movePlayer] does, field by field, for a snapshot whose
    active index names a player [p]. *)
Lemma movePlayer_outcome env snap steps w p :
  players snap !! currentPlayerIndex snap = Some p ->
  let w' := run (movePlayer env snap steps) w in
  let final := finalSquare (position p) steps in
  (movePlayer env snap steps w).1 = Some tt
  /\ players (state w')
     = imap (fun i q => if decide (i = currentPlayerIndex snap)
                        then withPosition final q else q) (players (state w))
  /\ winner (state w')
     = (if final =? TOTAL_SQUARES then Some p else winner (state w))
  /\ currentPlayerIndex (state w')
     = (if final =? TOTAL_SQUARES then currentPlayerIndex (state w)
        else ((currentPlayerIndex snap + 1) `mod` length (players snap))%nat)
  /\ diceValue (state w') = diceValue (state w)
  /\ isRolling (state w') = isRolling (state w)
  /\ exists es,
       gameLog (state w') = appended (gameLog (state w)) es
       /\ map type es = resolutionTypes (position p) steps.
Proof.
  intros Hp. unfold resolutionTypes, finalSquare, landing. handler_unfold.
  rewrite Hp. cbn.
  destruct (TOTAL_SQUARES <? position p + steps); cbn;
    (match goal with
     | |- context [transition ?n] => destruct (transition n) as [fin [[|]|]]
     end); cbn; destruct (fin =? TOTAL_SQUARES); cbn;
    (repeat split; try reflexivity);
    first [ eexists [_]; split; reflexivity
          | eexists [_; _]; split; reflexivity
          | eexists [_; _; _]; split; reflexivity
          | eexists [_; _; _; _]; split; reflexivity ].
Qed.

Lemma appended_snoc lg es e : appended lg (es ++ [e]) = pushEntry e (appended lg es).
Proof. unfold appended. rewrite foldl_app. reflexivity. Qed.

(** The log after a run of appends, written out: the new entries,
    newest first, on top of the old log cut to what still fits. *)
Lemma appended_explicit lg es :
  es <> [] -> (length es <= 50)%nat ->
  appended lg es = rev es ++ take (50 - length es) lg.
Proof.
  induction es as [|e es IH] using rev_ind; [congruence |]. intros _ Hlen.
  rewrite length_app in Hlen. cbn in Hlen.
  rewrite appended_snoc, rev_unit, length_app. cbn [length app].
  unfold pushEntry. f_equal.
  destruct es as [|e0 es'].
  - cbn. reflexivity.
  - rewrite IH by (congruence || lia).
    rewrite take_app, take_take, (take_ge (rev _)) by (rewrite length_rev; lia).
    rewrite length_rev. f_equal. f_equal. lia.
Qed.

(** The entries [movePlayer] appends are the ones [resolutionEntries]
    lists, messages and stamps included. *)
Lemma movePlayer_entries env snap steps w p :
  players snap !! currentPlayerIndex snap = Some p ->
  gameLog (state (run (movePlayer env snap steps) w))
  = appended (gameLog (state w)) (resolutionEntries env (draws w) p steps).
Proof.
  intros Hp. unfold resolutionEntries, resolutionRequests, finalSquare, landing.
  handler_unfold. rewrite Hp. cbn.
  destruct (TOTAL_SQUARES <? position p + steps); cbn;
    (match goal with
     | |- context [transition ?n] => destruct (transition n) as [fin [[|]|]]
     end); cbn; destruct (fin =? TOTAL_SQUARES); reflexivity.
Qed.

Lemma resolutionEntries_length env k p steps :
  (1 <= length (resolutionEntries env k p steps) <= 4)%nat.
Proof.
  unfold resolutionEntries, resolutionRequests. rewrite length_imap.
  destruct (TOTAL_SQUARES <? position p + steps);
    destruct ((transition (landing (position p) steps)).2) as [[|]|];
    destruct (finalSquare (position p) steps =? TOTAL_SQUARES); cbn; lia.
Qed.

(** The log after a resolution, written out. *)
Lemma movePlayer_log env snap steps w p :
  players snap !! currentPlayerIndex snap = Some p ->
  gameLog (state (run (movePlayer env snap steps) w))
  = rev (resolutionEntries env (draws w) p steps)
    ++ take (50 - length (resolutionEntries env (draws w) p steps)) (gameLog (state w)).
Proof.
  intros Hp. rewrite (movePlayer_entries env snap steps w p Hp).
  pose proof (resolutionEntries_length env (draws w) p steps) as Hlen.
  apply appended_explicit; [| lia].
  intros E. rewrite E in Hlen. cbn in Hlen. lia.
Qed.

Lemma withPosition_same p : withPosition (position p) p = p.
Proof. destruct p. reflexivity. Qed.

(** The [map] of [setPlayers] in [movePlayer] rewrites one element. *)
Lemma imap_active (l : list Player) idx q final :
  l !! idx = Some q ->
  imap (fun i x => if decide (i = idx) then withPosition final x else x) l
  = <[idx := withPosition final q]> l.
Proof.
  intros Hq. apply list_eq. intros i. rewrite list_lookup_imap.
  destruct (decide (i = idx)) as [-> | Hne].
  - rewrite Hq, list_lookup_insert_eq by (eapply lookup_lt_Some; exact Hq).
    cbn. destruct (decide (idx = idx)); [reflexivity | congruence].
  - rewrite list_lookup_insert_ne by congruence.
    destruct (l !! i); cbn; [|reflexivity].
    destruct (decide (i = idx)); [congruence | reflexivity].
Qed.

Lemma transition_resting q : restingSquare q -> transition q = (q, None).
Proof. intros (_ & Hs & Hl). apply transition_none; assumption. Qed.

Lemma landing_overshoot pos steps : pos + steps > 100 -> landing pos steps = pos.
Proof.
  intros H. unfold landing, TOTAL_SQUARES.
  destruct (Z.ltb_spec 100 (pos + steps)); [reflexivity | lia].
Qed.

Lemma landing_on_board pos steps : pos + steps <= 100 -> landing pos steps = pos + steps.
Proof.
  intros H. unfold landing, TOTAL_SQUARES.
  destruct (Z.ltb_spec 100 (pos + steps)); [lia | reflexivity].
Qed.

(** ** Rolls that are refused *)

Lemma rollDice_click_refused w :
  isRolling (state w) = true \/ is_Some (winner (state w)) ->
  rollDice_click (state w) w = (Some false, w).
Proof.
  intros Hguard. unfold rollDice_click.
  assert (Hcond : isRolling (state w) || bool_decide (is_Some (winner (state w))) = true).
  { destruct Hguard as [-> | Hw]; [reflexivity |].
    rewrite (bool_decide_eq_true_2 _ Hw). apply orb_true_r. }
  rewrite Hcond. reflexivity.
Qed.

Lemma rollDice_refused env roll w :
  isRolling (state w) = true \/ is_Some (winner (state w)) ->
  rollDice env roll w = w.
Proof.
  intros Hguard. unfold rollDice. rewrite rollDice_click_refused by exact Hguard.
  reflexivity.
Qed.

(** C4: while a roll is in progress or once a winner is declared, a
    call of [rollDice] returns at its guard: the store (positions,
    turn, dice value, winner, log) is the one before, whatever die
    face would have been drawn, and no roll is left waiting. *)
Theorem rollDice_noop env roll w waiting :
  isRolling (state w) = true \/ is_Some (winner (state w)) ->
  rollDice_click (state w) w = (Some false, w)
  /\ rollDice env roll w = w
  /\ dispatch env (mkApp w waiting) ClickRoll = mkApp w waiting.
Proof.
  intros Hguard. split; [apply rollDice_click_refused; exact Hguard |].
  split; [apply rollDice_refused; exact Hguard |].
  unfold dispatch. cbn [world pending].
  rewrite rollDice_click_refused by exact Hguard. reflexivity.
Qed.

Lemma rollDice_noop_witness :
  isRolling (state midRoll) = true
  /\ rollDice sampleEnv 4 midRoll = midRoll.
Proof.
  split; [reflexivity |].
  apply (rollDice_noop sampleEnv 4 midRoll None). left. reflexivity.
Defined.

(** ** Winning *)

(** C2: when the square written to the active player is 100, the
    winner is that player; the log is the win entry, naming the
    player, on top of the other entries of this resolution, on top of
    the previous log cut to what still fits; the active index is the
    one before; and from then on every call of [rollDice] leaves the
    store as it is. *)
Theorem win_ends_game env snap steps w p (rolls : list Z) :
  players snap !! currentPlayerIndex snap = Some p ->
  finalSquare (position p) steps = 100 ->
  let w' := run (movePlayer env snap steps) w in
  (movePlayer env snap steps w).1 = Some tt
  /\ winner (state w') = Some p
  /\ (exists k earlier,
        resolutionEntries env (draws w) p steps
        = earlier ++ [stamped env k ("🎉 " +:+ name p +:+ " wins the game!") Win]
        /\ gameLog (state w')
           = stamped env k ("🎉 " +:+ name p +:+ " wins the game!") Win
             :: rev earlier ++ take (49 - length earlier) (gameLog (state w)))
  /\ currentPlayerIndex (state w') = currentPlayerIndex (state w)
  /\ rollDice_click (state w') w' = (Some false, w')
  /\ foldl (fun v roll => rollDice env roll v) w' rolls = w'.
Proof.
  intros Hp Hfinal w'.
  destruct (movePlayer_outcome env snap steps w p Hp)
    as (Hdone & _ & Hwinner & Hidx & _ & _ & _).
  fold w' in Hwinner, Hidx.
  rewrite Hfinal in Hwinner, Hidx.
  change (100 =? TOTAL_SQUARES) with true in *. cbv iota in *.
  assert (Hwon : is_Some (winner (state w'))) by (rewrite Hwinner; eauto).
  split; [exact Hdone |].
  split; [exact Hwinner |]. split; [| split; [exact Hidx | split]].
  - assert (Hlast : exists k earlier,
              resolutionEntries env (draws w) p steps
              = earlier ++ [stamped env k ("🎉 " +:+ name p +:+ " wins the game!") Win]).
    { unfold resolutionEntries, resolutionRequests. rewrite Hfinal.
      change (100 =? TOTAL_SQUARES) with true. cbv iota.
      rewrite !app_assoc, imap_app. cbn [imap]. eauto. }
    destruct Hlast as (k & earlier & Hlast). exists k, earlier.
    split; [exact Hlast |].
    unfold w'. rewrite (movePlayer_log env snap steps w p Hp), Hlast.
    rewrite rev_unit, length_app. cbn [length app].
    replace (50 - (length earlier + 1))%nat with (49 - length earlier)%nat by lia.
    reflexivity.
  - apply rollDice_click_refused. right. exact Hwon.
  - induction rolls as [|roll rolls IH]; [reflexivity |].
    cbn [foldl]. rewrite rollDice_refused by (right; exact Hwon). exact IH.
Qed.

Lemma win_ends_game_witness :
  finalSquare 95 5 = 100
  /\ winner (state (run (movePlayer sampleEnv (state fiveToGo) 5) fiveToGo))
     = Some (mkPlayer 1 "Player 1" 95 "#8b5cf6")
  /\ gameLog (state (run (movePlayer sampleEnv (state fiveToGo) 5) fiveToGo))
     = [ stamped sampleEnv 1 "🎉 Player 1 wins the game!" Win;
         stamped sampleEnv 0 "Player 1 rolled a 5." Move ]
  /\ (exists k earlier,
        gameLog (state (run (movePlayer sampleEnv (state fiveToGo) 5) fiveToGo))
        = stamped sampleEnv k
            ("🎉 " +:+ name (mkPlayer 1 "Player 1" 95 "#8b5cf6") +:+ " wins the game!") Win
          :: rev earlier ++ take (49 - length earlier) (gameLog (state fiveToGo)))
  /\ foldl (fun v roll => rollDice sampleEnv roll v)
       (run (movePlayer sampleEnv (state fiveToGo) 5) fiveToGo) [3; 6; 1]
     = run (movePlayer sampleEnv (state fiveToGo) 5) fiveToGo.
Proof.
  assert (Hfinal : finalSquare 95 5 = 100) by (vm_compute; reflexivity).
  split; [exact Hfinal |].
  destruct (win_ends_game sampleEnv (state fiveToGo) 5 fiveToGo
              (mkPlayer 1 "Player 1" 95 "#8b5cf6") [3; 6; 1])
    as (_ & Hwinner & (k & earlier & _ & Hlog) & _ & _ & Hrolls).
  - vm_compute. reflexivity.
  - exact Hfinal.
  - split; [exact Hwinner |]. split; [vm_compute; reflexivity |].
    split; [exists k, earlier; exact Hlog | exact Hrolls].
Defined.

(** ** Landing on the board *)

(** C3: when the square rolled to, [t], is on the board, the active
    player is written to the snake's tail if [t] is a snake head
    (whatever the ladder map holds for [t]), else to the ladder's top
    if [t] is a ladder foot, else to [t] itself.  A snake takes the
    player down and puts a snake entry, naming [t] and the tail, on
    top of the move entry; a ladder puts a ladder entry, naming [t]
    and the top, on top of the move entry; without either the log
    gets the move entry alone, or the win entry on top of it when [t]
    is 100.  The snake test comes first in the check itself: run on
    any two tables, a square that is a key of both is sent down the
    snake. *)
Theorem landing_resolved env snap steps w p q :
  players snap !! currentPlayerIndex snap = Some p ->
  players (state w) !! currentPlayerIndex snap = Some q ->
  position p + steps <= 100 ->
  let t := position p + steps in
  let w' := run (movePlayer env snap steps) w in
  let moved := stamped env (draws w)
                 (name p +:+ " rolled a " +:+ pretty steps +:+ ".") Move in
  (movePlayer env snap steps w).1 = Some tt
  /\ match SNAKES !! t, LADDERS !! t with
     | Some d, _ =>
         d < t
         /\ players (state w') !! currentPlayerIndex snap = Some (withPosition d q)
         /\ gameLog (state w')
            = stamped env (S (draws w))
                ("Oh no! " +:+ name p +:+ " hit a snake at " +:+ pretty t
                   +:+ " and fell to " +:+ pretty d +:+ "!") Snake
              :: moved :: take 48 (gameLog (state w))
     | None, Some d =>
         players (state w') !! currentPlayerIndex snap = Some (withPosition d q)
         /\ gameLog (state w')
            = stamped env (S (draws w))
                ("Great! " +:+ name p +:+ " climbed a ladder at " +:+ pretty t
                   +:+ " to " +:+ pretty d +:+ "!") Ladder
              :: moved :: take 48 (gameLog (state w))
     | None, None =>
         players (state w') !! currentPlayerIndex snap = Some (withPosition t q)
         /\ gameLog (state w')
            = if t =? 100
              then stamped env (S (draws w))
                     ("🎉 " +:+ name p +:+ " wins the game!") Win
                   :: moved :: take 48 (gameLog (state w))
              else moved :: take 49 (gameLog (state w))
     end
  /\ (forall (snakes ladders : gmap Z Z) n d d',
        snakes !! n = Some d -> d <> 0 -> ladders !! n = Some d' ->
        transitionOn snakes ladders n = (d, Some TSnake)).
Proof.
  intros Hp Hq Hon t w' moved.
  destruct (movePlayer_outcome env snap steps w p Hp)
    as (Hdone & Hplayers & _).
  pose proof (movePlayer_log env snap steps w p Hp) as Hlog.
  fold w' in Hplayers, Hlog. split; [exact Hdone |].
  assert (Hwritten : forall final, finalSquare (position p) steps = final ->
            players (state w') !! currentPlayerIndex snap = Some (withPosition final q)).
  { intros final <-. rewrite Hplayers, (imap_active _ _ q) by exact Hq.
    apply list_lookup_insert_eq. eapply lookup_lt_Some. exact Hq. }
  assert (Hnot : (TOTAL_SQUARES <? position p + steps) = false)
    by (apply Z.ltb_ge; unfold TOTAL_SQUARES; lia).
  unfold resolutionEntries, resolutionRequests, finalSquare in Hlog.
  unfold finalSquare in Hwritten.
  rewrite landing_on_board in Hlog, Hwritten by exact Hon.
  rewrite Hnot in Hlog. fold t in Hlog, Hwritten.
  split.
  - destruct (SNAKES !! t) as [d|] eqn:Es; [| destruct (LADDERS !! t) as [d|] eqn:El].
    + rewrite (transition_snake t d Es) in Hlog, Hwritten.
      destruct (snake_lookup t d Es) as (_ & Hd & _).
      assert (Hnot100 : (d =? TOTAL_SQUARES) = false)
        by (apply Z.eqb_neq; unfold TOTAL_SQUARES; lia).
      cbn [fst snd] in Hlog. rewrite Hnot100 in Hlog.
      split; [lia |]. split; [apply Hwritten; reflexivity |]. exact Hlog.
    + rewrite (transition_ladder t d Es El) in Hlog, Hwritten.
      destruct (ladder_lookup t d El) as (_ & Hd & _).
      assert (Hnot100 : (d =? TOTAL_SQUARES) = false)
        by (apply Z.eqb_neq; unfold TOTAL_SQUARES; lia).
      cbn [fst snd] in Hlog. rewrite Hnot100 in Hlog.
      split; [apply Hwritten; reflexivity |]. exact Hlog.
    + rewrite (transition_none t Es El) in Hlog, Hwritten.
      split; [apply Hwritten; reflexivity |].
      cbn [fst snd] in Hlog. unfold TOTAL_SQUARES in Hlog.
      rewrite Hlog. destruct (t =? 100); reflexivity.
  - intros snakes ladders n d d' Es Hd _. unfold transitionOn. rewrite Es. cbn.
    destruct (Z.eqb_spec d 0); [congruence | reflexivity].
Qed.

(** The store after mounting, and the example of a first roll of 6:
    square 7 is the foot of the ladder to 14. *)
Lemma landing_resolved_witness :
  1 + 6 <= 100
  /\ LADDERS !! (1 + 6) = Some 14
  /\ players (state (run (movePlayer sampleEnv (state (mounted sampleEnv)) 6)
                         (mounted sampleEnv))) !! 0%nat
     = Some (mkPlayer 1 "Player 1" 14 "#8b5cf6")
  /\ gameLog (state (run (movePlayer sampleEnv (state (mounted sampleEnv)) 6)
                         (mounted sampleEnv)))
     = [ stamped sampleEnv 2 "Great! Player 1 climbed a ladder at 7 to 14!" Ladder;
         stamped sampleEnv 1 "Player 1 rolled a 6." Move;
         stamped sampleEnv 0 "Game started! Player 1 goes first." Info ]
  /\ transitionOn {[ 5 := 2 ]} {[ 5 := 9 ]} 5 = (2, Some TSnake).
Proof.
  split; [lia |]. split; [vm_compute; reflexivity |].
  pose proof (landing_resolved sampleEnv (state (mounted sampleEnv)) 6
                (mounted sampleEnv)
                (mkPlayer 1 "Player 1" 1 "#8b5cf6")
                (mkPlayer 1 "Player 1" 1 "#8b5cf6")
                eq_refl eq_refl) as H.
  cbn zeta in H.
  change (position (mkPlayer 1 "Player 1" 1 "#8b5cf6") + 6) with 7 in H.
  assert (Es : SNAKES !! 7 = None) by (vm_compute; reflexivity).
  assert (El : LADDERS !! 7 = Some 14) by (vm_compute; reflexivity).
  rewrite Es, El in H.
  destruct H as (_ & (Hplayer & Hlog) & Hfirst); [lia |].
  split; [exact Hplayer |]. split; [exact Hlog |].
  apply (Hfirst _ _ 5 2 9); [apply lookup_singleton_eq | lia | apply lookup_singleton_eq].
Defined.

(** ** Reachable states *)

(** The square written by a resolution is again a square to rest on,
    when the player came from one and the roll is a forward one. *)
Lemma finalSquare_resting pos steps :
  restingSquare pos -> 1 <= steps -> restingSquare (finalSquare pos steps).
Proof.
  intros Hpos Hsteps. unfold finalSquare, landing.
  destruct (Z.ltb_spec TOTAL_SQUARES (pos + steps)) as [Hover | Hon].
  - rewrite transition_resting by exact Hpos. exact Hpos.
  - destruct Hpos as (Hrange & _). unfold TOTAL_SQUARES in *.
    destruct (SNAKES !! (pos + steps)) as [d|] eqn:Es;
      [| destruct (LADDERS !! (pos + steps)) as [d|] eqn:El].
    + rewrite (transition_snake _ d Es).
      destruct (snake_lookup _ d Es) as (_ & Hd & _ & Hds & Hdl).
      unfold restingSquare, TOTAL_SQUARES. cbn. repeat split; try assumption; lia.
    + rewrite (transition_ladder _ d Es El).
      destruct (ladder_lookup _ d El) as (_ & Hd & _ & Hds & Hdl).
      unfold restingSquare, TOTAL_SQUARES. cbn. repeat split; try assumption; lia.
    + rewrite (transition_none _ Es El).
      unfold restingSquare, TOTAL_SQUARES. cbn. repeat split; try assumption; lia.
Qed.

(** From a square to rest on other than 100, a resolution logs the
    move entry and at most one more. *)
Lemma resolutionTypes_short pos steps :
  restingSquare pos -> pos <> 100 ->
  resolutionTypes pos steps = [Move]
  \/ exists ty, In ty [Snake; Ladder; Win; Info]
       /\ resolutionTypes pos steps = [Move; ty].
Proof.
  intros Hpos Hne. unfold resolutionTypes, finalSquare, landing.
  destruct (Z.ltb_spec TOTAL_SQUARES (pos + steps)) as [Hover | Hon].
  - rewrite transition_resting by exact Hpos. cbn.
    assert (Hnot100 : (pos =? TOTAL_SQUARES) = false) by (apply Z.eqb_neq; exact Hne).
    rewrite Hnot100. right. exists Info. split; [cbn; tauto | reflexivity].
  - unfold TOTAL_SQUARES in *.
    destruct (SNAKES !! (pos + steps)) as [d|] eqn:Es;
      [| destruct (LADDERS !! (pos + steps)) as [d|] eqn:El].
    + rewrite (transition_snake _ d Es).
      destruct (snake_lookup _ d Es) as (Hk & Hd & Hrest).
      assert (Hnot100 : (d =? 100) = false) by (apply Z.eqb_neq; lia).
      cbn. rewrite Hnot100. right. exists Snake. split; [cbn; tauto | reflexivity].
    + rewrite (transition_ladder _ d Es El).
      destruct (ladder_lookup _ d El) as (Hk & Hd & Hrest).
      assert (Hnot100 : (d =? 100) = false) by (apply Z.eqb_neq; lia).
      cbn. rewrite Hnot100. right. exists Ladder. split; [cbn; tauto | reflexivity].
    + rewrite (transition_none _ Es El). cbn.
      destruct (pos + steps =? 100); [right | left; reflexivity].
      exists Win. split; [cbn; tauto | reflexivity].
Qed.

Lemma restingSquare_1 : restingSquare 1.
Proof. unfold restingSquare, TOTAL_SQUARES. repeat split; try lia; vm_compute; reflexivity. Qed.

Lemma mounted_state env :
  state (mounted env)
  = mkState (players initialState) 0%nat None false
            [stamped env 0 "Game started! Player 1 goes first." Info] None.
Proof. reflexivity. Qed.

Lemma boardOk_mounted env : boardOk (state (mounted env)).
Proof.
  unfold boardOk. rewrite mounted_state. cbn.
  split; [reflexivity |]. split; [lia |]. split.
  - repeat constructor; apply restingSquare_1.
  - intros _. repeat constructor; cbn; lia.
Qed.

Lemma boardOk_reset env w : boardOk (state w) -> boardOk (state (run (resetGame env) w)).
Proof.
  intros (Hlen & _). unfold boardOk.
  change (players (state (run (resetGame env) w)))
    with (map (withPosition 1) (players (state w))).
  change (currentPlayerIndex (state (run (resetGame env) w))) with 0%nat.
  rewrite length_map. split; [exact Hlen |]. split; [lia |].
  split; [| intros _]; apply Forall_forall; intros p Hp;
    apply list_elem_of_fmap in Hp; destruct Hp as (q & -> & _); cbn.
  - apply restingSquare_1.
  - lia.
Qed.

(** The part of [rollDice] after the timer is [movePlayer] run in the
    store with the dice value shown and the rolling flag cleared. *)
Lemma rollDice_resume_run env snap roll w :
  run (rollDice_resume env snap roll) w
  = run (movePlayer env snap roll)
        (mkWorld (mkState (players (state w)) (currentPlayerIndex (state w))
                          (Some roll) false (gameLog (state w)) (winner (state w)))
                 (draws w)).
Proof. reflexivity. Qed.

Lemma rollDice_resume_done env snap roll w :
  (rollDice_resume env snap roll w).1
  = (movePlayer env snap roll
       (mkWorld (mkState (players (state w)) (currentPlayerIndex (state w))
                         (Some roll) false (gameLog (state w)) (winner (state w)))
                (draws w))).1.
Proof. reflexivity. Qed.

(** A click and the timer that follows it are one call of [rollDice]. *)
Lemma rollDice_as_events env roll w :
  world (dispatch env (dispatch env (mkApp w None) ClickRoll) (TimerDone roll))
  = rollDice env roll w.
Proof.
  unfold rollDice, dispatch. cbn [world pending].
  destruct (rollDice_click (state w) w) as [[[|]|] w']; reflexivity.
Qed.

Lemma boardOk_resolved env snap roll w :
  boardOk snap -> winner snap = None -> boardOk (state w) -> 1 <= roll ->
  boardOk (state (run (rollDice_resume env snap roll) w)).
Proof.
  intros (Hslen & Hsidx & Hsrest & Hsnot) Hsw (Hlen & Hidx & Hrest & Hnot) Hroll.
  rewrite rollDice_resume_run.
  set (w0 := mkWorld _ _).
  destruct (lookup_lt_is_Some_2 (players snap) (currentPlayerIndex snap)) as [p Hp];
    [lia |].
  destruct (lookup_lt_is_Some_2 (players (state w)) (currentPlayerIndex snap)) as [q Hq];
    [lia |].
  destruct (movePlayer_outcome env snap roll w0 p Hp)
    as (_ & Hplayers & Hwinner & Hindex & _).
  change (players (state w0)) with (players (state w)) in Hplayers.
  change (winner (state w0)) with (winner (state w)) in Hwinner.
  change (currentPlayerIndex (state w0)) with (currentPlayerIndex (state w)) in Hindex.
  rewrite (imap_active _ _ q) in Hplayers by exact Hq.
  assert (Hfinal : restingSquare (finalSquare (position p) roll)).
  { apply finalSquare_resting; [| exact Hroll].
    rewrite Forall_lookup in Hsrest. exact (Hsrest _ _ Hp). }
  unfold boardOk. rewrite Hplayers, Hwinner, Hindex, length_insert.
  split; [exact Hlen |]. split; [| split].
  - destruct (_ =? _); [exact Hidx |].
    rewrite Hslen. apply Nat.mod_upper_bound. lia.
  - apply Forall_insert; [exact Hrest | exact Hfinal].
  - destruct (Z.eqb_spec (finalSquare (position p) roll) TOTAL_SQUARES) as [E | Hne];
      [discriminate |].
    intros Hw. apply Forall_insert; [exact (Hnot Hw) | exact Hne].
Qed.

Lemma appOk_dispatch env a e : appOk a -> validEvent e -> appOk (dispatch env a e).
Proof.
  intros (Hstore & Hwait) He. destruct e as [| | roll]; unfold dispatch.
  - unfold rollDice_click.
    destruct (isRolling (state (world a))
              || bool_decide (is_Some (winner (state (world a))))) eqn:Hguard.
    + split; assumption.
    + apply orb_false_elim in Hguard. destruct Hguard as (_ & Hwin).
      apply bool_decide_eq_false in Hwin.
      assert (Hnone : winner (state (world a)) = None).
      { destruct (winner (state (world a))); [exfalso; apply Hwin; eauto | reflexivity]. }
      split; [exact Hstore | split; [exact Hstore | exact Hnone]].
  - split; [apply boardOk_reset; exact Hstore | exact Hwait].
  - destruct (pending a) as [snap|] eqn:Hpend; [| split; [exact Hstore |]].
    + destruct Hwait as (Hsnap & Hnone). cbn in He.
      split; [| exact I]. apply boardOk_resolved; try assumption. lia.
    + rewrite Hpend. exact I.
Qed.

Lemma reachable_appOk env a : reachable env a -> appOk a.
Proof.
  induction 1 as [| a e _ IH He].
  - split; [apply boardOk_mounted | exact I].
  - apply appOk_dispatch; assumption.
Qed.

(** C10: in every state reached from the mounted component (both
    players on square 1) by clicks on the two buttons and timers of
    waiting rolls drawing a face of 1..6, each player stands on a
    square of 1..100 that is a key of neither map; so the snake and
    ladder check that follows an overshoot finds nothing and writes
    the player back to the square they stand on. *)
Theorem reachable_positions env a :
  reachable env a ->
  Forall (fun p =>
            1 <= position p <= 100
            /\ SNAKES !! position p = None
            /\ LADDERS !! position p = None
            /\ forall steps, position p + steps > 100 ->
                 finalSquare (position p) steps = position p)
         (players (state (world a))).
Proof.
  intros Hreach. apply reachable_appOk in Hreach.
  destruct Hreach as ((_ & _ & Hrest & _) & _).
  eapply Forall_impl; [exact Hrest |].
  intros p (Hrange & Hs & Hl). unfold TOTAL_SQUARES in Hrange.
  repeat split; try assumption; try lia.
  intros steps Hover. unfold finalSquare.
  rewrite landing_overshoot by exact Hover.
  rewrite transition_none by assumption. reflexivity.
Qed.

Lemma twoRollsIn_reachable : reachable sampleEnv twoRollsIn.
Proof.
  unfold twoRollsIn. cbn [foldl].
  repeat (apply reach_dispatch; [| cbn; lia || exact I]).
  apply reach_mounted.
Qed.

Lemma reachable_positions_witness :
  map position (players (state (world twoRollsIn))) = [14; 38]
  /\ Forall (fun p =>
            1 <= position p <= 100
            /\ SNAKES !! position p = None
            /\ LADDERS !! position p = None
            /\ forall steps, position p + steps > 100 ->
                 finalSquare (position p) steps = position p)
         (players (state (world twoRollsIn))).
Proof.
  split; [vm_compute; reflexivity |].
  exact (reachable_positions sampleEnv twoRollsIn twoRollsIn_reachable).
Defined.

(** C9: the resolution of a roll that was waiting in a reachable
    state appends one move entry and then nothing, or one entry more,
    of type snake, ladder, win or info. *)
Theorem resolution_log_entries env a snap roll :
  reachable env a ->
  pending a = Some snap ->
  (rollDice_resume env snap roll (world a)).1 = Some tt
  /\ exists m, type m = Move
    /\ (gameLog (state (world (dispatch env a (TimerDone roll))))
        = pushEntry m (gameLog (state (world a)))
        \/ exists x, In (type x) [Snake; Ladder; Win; Info]
             /\ gameLog (state (world (dispatch env a (TimerDone roll))))
                = pushEntry x (pushEntry m (gameLog (state (world a))))).
Proof.
  intros Hreach Hpend. apply reachable_appOk in Hreach.
  destruct Hreach as (_ & Hwait). rewrite Hpend in Hwait.
  destruct Hwait as ((Hlen & Hidx & Hrest & Hnot) & Hnone).
  unfold dispatch. rewrite Hpend. cbn [world].
  rewrite rollDice_resume_run, rollDice_resume_done. set (w0 := mkWorld _ _).
  destruct (lookup_lt_is_Some_2 (players snap) (currentPlayerIndex snap)) as [p Hp];
    [lia |].
  destruct (movePlayer_outcome env snap roll w0 p Hp)
    as (Hdone & _ & _ & _ & _ & _ & es & Hlog & Htypes).
  change (gameLog (state w0)) with (gameLog (state (world a))) in Hlog.
  split; [exact Hdone |]. rewrite Hlog.
  rewrite Forall_lookup in Hrest. specialize (Hnot Hnone).
  rewrite Forall_lookup in Hnot.
  destruct (resolutionTypes_short (position p) roll (Hrest _ _ Hp) (Hnot _ _ Hp))
    as [Hone | (ty & Hty & Htwo)].
  - rewrite Hone in Htypes. destruct es as [|m [|? ?]]; try discriminate Htypes.
    injection Htypes as Hm. exists m. split; [exact Hm | left; reflexivity].
  - rewrite Htwo in Htypes. destruct es as [|m [|x [|? ?]]]; try discriminate Htypes.
    injection Htypes as Hm Hx. exists m. split; [exact Hm | right].
    exists x. rewrite Hx. split; [exact Hty | reflexivity].
Qed.

Lemma firstRollWaiting_reachable : reachable sampleEnv firstRollWaiting.
Proof. apply reach_dispatch; [apply reach_mounted | exact I]. Qed.

Lemma resolution_log_entries_witness :
  pending firstRollWaiting = Some (state (mounted sampleEnv))
  /\ map type (gameLog (state (world (dispatch sampleEnv firstRollWaiting (TimerDone 6)))))
     = [Ladder; Move; Info]
  /\ (rollDice_resume sampleEnv (state (mounted sampleEnv)) 6 (world firstRollWaiting)).1
     = Some tt
  /\ exists m, type m = Move
    /\ (gameLog (state (world (dispatch sampleEnv firstRollWaiting (TimerDone 6))))
        = pushEntry m (gameLog (state (world firstRollWaiting)))
        \/ exists x, In (type x) [Snake; Ladder; Win; Info]
             /\ gameLog (state (world (dispatch sampleEnv firstRollWaiting (TimerDone 6))))
                = pushEntry x (pushEntry m (gameLog (state (world firstRollWaiting))))).
Proof.
  split; [reflexivity |]. split; [vm_compute; reflexivity |].
  exact (resolution_log_entries sampleEnv firstRollWaiting (state (mounted sampleEnv)) 6
           firstRollWaiting_reachable eq_refl).
Defined.

(** ** The worked examples of the specification *)

(** Both players on 1, the first rolls 6: square 7 is a ladder foot,
    the player ends on 14, a ladder entry is logged after the move
    entry, and the turn passes to the second player. *)
Example first_roll_six_climbs :
  map position (players (state (rollDice sampleEnv 6 (mounted sampleEnv)))) = [14; 1]
  /\ map type (gameLog (state (rollDice sampleEnv 6 (mounted sampleEnv))))
     = [Ladder; Move; Info]
  /\ currentPlayerIndex (state (rollDice sampleEnv 6 (mounted sampleEnv))) = 1%nat.
Proof. repeat split; vm_compute; reflexivity. Qed.

(** A player on 95 rolls 5: square 100 starts no transition, the
    player wins and keeps the turn. *)
Example ninety_five_plus_five_wins :
  map position (players (state (rollDice sampleEnv 5 fiveToGo))) = [100; 44]
  /\ name <$> winner (state (rollDice sampleEnv 5 fiveToGo)) = Some "Player 1"
  /\ map type (gameLog (state (rollDice sampleEnv 5 fiveToGo))) = [Win; Move]
  /\ currentPlayerIndex (state (rollDice sampleEnv 5 fiveToGo)) = 0%nat.
Proof. repeat split; vm_compute; reflexivity. Qed.

(** A player on 98 rolls 5: the player stays on 98 and the turn passes
    to the other player. *)
Example ninety_eight_plus_five_stays :
  map position (players (state (rollDice sampleEnv 5 nearTheEnd))) = [98; 1]
  /\ winner (state (rollDice sampleEnv 5 nearTheEnd)) = None
  /\ map type (gameLog (state (rollDice sampleEnv 5 nearTheEnd))) = [Info; Move]
  /\ currentPlayerIndex (state (rollDice sampleEnv 5 nearTheEnd)) = 1%nat.
Proof. repeat split; vm_compute; reflexivity. Qed.

(** * Further properties of the component *)

Lemma reachable_foldl env es : forall a,
  reachable env a -> Forall validEvent es -> reachable env (foldl (dispatch env) a es).
Proof.
  induction es as [|e es IH]; intros a Ha Hes; [exact Ha |].
  cbn [foldl]. inversion Hes; subst. apply IH; [| assumption].
  apply reach_dispatch; assumption.
Qed.

Lemma wonGame_reachable : reachable sampleEnv wonGame.
Proof.
  apply reachable_foldl; [apply reach_mounted |].
  unfold winningGame. repeat constructor; cbn; lia.
Qed.

Lemma secondRollWaiting_reachable : reachable sampleEnv secondRollWaiting.
Proof.
  apply reachable_foldl; [apply reach_mounted |].
  repeat constructor; cbn; lia.
Qed.

(** ** The grid and the coordinates *)

Lemma cell_row_col i :
  0 <= i <= 99 ->
  0 <= i `div` 10 <= 9 /\ 0 <= i `rem` 10 <= 9 /\ i = (i `div` 10) * 10 + i `rem` 10.
Proof. intros Hi. Z.to_euclidean_division_equations. lia. Qed.

Lemma cellNumber_row_col i :
  0 <= i <= 99 ->
  cellNumber i
  = (9 - i `div` 10) * 10
    + (if Z.even (9 - i `div` 10) then i `rem` 10 else 9 - i `rem` 10) + 1.
Proof.
  intros Hi. destruct (cell_row_col i Hi) as (Hrow & _).
  unfold cellNumber. rewrite (row_parity (9 - i `div` 10)) by lia. reflexivity.
Qed.

Lemma getCoordinates_cellNumber i :
  0 <= i <= 99 -> getCoordinates (cellNumber i) = (i `rem` 10, i `div` 10).
Proof.
  intros Hi. destruct (cell_row_col i Hi) as (Hrow & Hcol & _).
  rewrite cellNumber_row_col by exact Hi.
  rewrite getCoordinates_row_col by (destruct (Z.even (9 - i `div` 10)); lia).
  destruct (Z.even (9 - i `div` 10)); f_equal; lia.
Qed.

(** The grid and the token layer agree: the cell drawn [i]-th (column
    [i % 10], row [floor(i / 10)] from the top) bears a number of
    1..100, [getCoordinates] sends that number back to this column and
    row, no other cell bears it, and every square of 1..100 is the
    number of some cell. *)
Theorem grid_numbering_matches_coordinates i :
  0 <= i <= 99 ->
  1 <= cellNumber i <= 100
  /\ getCoordinates (cellNumber i) = (i `rem` 10, i `div` 10)
  /\ (forall j, 0 <= j <= 99 -> cellNumber j = cellNumber i -> j = i)
  /\ (forall s, 1 <= s <= 100 -> exists j, 0 <= j <= 99 /\ cellNumber j = s).
Proof.
  intros Hi. split; [| split; [| split]].
  - destruct (cell_row_col i Hi) as (Hrow & Hcol & _).
    rewrite cellNumber_row_col by exact Hi.
    destruct (Z.even (9 - i `div` 10)); lia.
  - apply getCoordinates_cellNumber. exact Hi.
  - intros j Hj E.
    pose proof (getCoordinates_cellNumber i Hi) as Ci.
    pose proof (getCoordinates_cellNumber j Hj) as Cj.
    rewrite E, Ci in Cj. injection Cj as Hrem Hdiv.
    destruct (cell_row_col i Hi) as (_ & _ & Ei).
    destruct (cell_row_col j Hj) as (_ & _ & Ej). lia.
  - intros s Hs. exists ((getCoordinates s).2 * 10 + (getCoordinates s).1).
    split; [| apply cellNumber_getCoordinates; exact Hs].
    destruct (square_row_col s Hs) as (row & col & Hrow & Hcol & ->).
    rewrite getCoordinates_row_col by assumption. cbn [fst snd].
    destruct (Z.even row); lia.
Qed.

Lemma grid_numbering_matches_coordinates_witness :
  cellNumber 0 = 100
  /\ getCoordinates (cellNumber 90) = (0, 9)
  /\ getCoordinates (cellNumber 37) = (7, 3).
Proof.
  split; [reflexivity |].
  split.
  - apply (grid_numbering_matches_coordinates 90). lia.
  - apply (grid_numbering_matches_coordinates 37). lia.
Defined.

(** [getCoordinates] lands inside the 10x10 grid for the squares 1..100
    and for no other number. *)
Theorem getCoordinates_in_grid_iff s :
  (0 <= (getCoordinates s).1 <= 9 /\ 0 <= (getCoordinates s).2 <= 9)
  <-> 1 <= s <= 100.
Proof.
  split.
  - intros (_ & Hy). unfold getCoordinates, GRID_SIZE in Hy. cbn [snd] in Hy.
    Z.to_euclidean_division_equations. lia.
  - intros Hs. destruct (square_row_col s Hs) as (row & col & Hrow & Hcol & ->).
    rewrite getCoordinates_row_col by assumption. cbn [fst snd].
    destruct (Z.even row); lia.
Qed.

Lemma getCoordinates_in_grid_iff_witness :
  (0 <= (getCoordinates 100).1 <= 9 /\ 0 <= (getCoordinates 100).2 <= 9)
  /\ ~ (0 <= (getCoordinates 101).1 <= 9 /\ 0 <= (getCoordinates 101).2 <= 9)
  /\ ~ (0 <= (getCoordinates 0).1 <= 9 /\ 0 <= (getCoordinates 0).2 <= 9).
Proof.
  split; [apply (getCoordinates_in_grid_iff 100); lia |].
  split; intros H; apply getCoordinates_in_grid_iff in H; lia.
Defined.

(** The path of the squares is unbroken: the square after [s] lies in
    the cell right above when [s] ends a row, and otherwise in the
    same row one cell to the side, to the right in rows of even index
    and to the left in rows of odd index. *)
Theorem serpentine_neighbours s :
  1 <= s <= 99 ->
  let here := getCoordinates s in
  let next := getCoordinates (s + 1) in
  if s `mod` 10 =? 0 then next = (here.1, here.2 - 1)
  else next = (if Z.even ((s - 1) `div` 10) then here.1 + 1 else here.1 - 1, here.2).
Proof.
  intros Hs here next. subst here next.
  destruct (square_row_col s) as (row & col & Hrow & Hcol & ->); [lia |].
  assert (Hdiv : (row * 10 + col + 1 - 1) `div` 10 = row)
    by (Z.to_euclidean_division_equations; lia).
  rewrite Hdiv, (getCoordinates_row_col row col) by assumption. cbn [fst snd].
  destruct (Z.eqb_spec ((row * 10 + col + 1) `mod` 10) 0) as [Hend | Hmid].
  - assert (col = 9) by (Z.to_euclidean_division_equations; lia). subst col.
    replace (row * 10 + 9 + 1 + 1) with ((row + 1) * 10 + 0 + 1) by lia.
    rewrite getCoordinates_row_col by lia.
    replace (row + 1) with (Z.succ row) by lia. rewrite Z.even_succ, <- Z.negb_even.
    destruct (Z.even row); cbn; f_equal; lia.
  - assert (col <> 9) by (Z.to_euclidean_division_equations; lia).
    replace (row * 10 + col + 1 + 1) with (row * 10 + (col + 1) + 1) by lia.
    rewrite getCoordinates_row_col by lia.
    destruct (Z.even row); f_equal; lia.
Qed.

Lemma serpentine_neighbours_witness :
  getCoordinates (10 + 1) = ((getCoordinates 10).1, (getCoordinates 10).2 - 1)
  /\ getCoordinates (15 + 1) = ((getCoordinates 15).1 - 1, (getCoordinates 15).2).
Proof.
  split.
  - apply (serpentine_neighbours 10). lia.
  - apply (serpentine_neighbours 15). lia.
Defined.

(** The cell backgrounds are column stripes, not a chequerboard: the
    cell drawn [i]-th has the stronger tint exactly when its column
    [i % 10] is even, whatever its row. *)
Theorem cell_shade_by_column i :
  0 <= i <= 99 -> cellDark (cellNumber i) = Z.even (i `rem` 10).
Proof.
  intros Hi. destruct (cell_row_col i Hi) as (Hrow & Hcol & _).
  rewrite cellNumber_row_col by exact Hi. unfold cellDark.
  set (row := 9 - i `div` 10) in *. set (c := i `rem` 10) in *.
  set (col := if Z.even row then c else 9 - c).
  assert (Hc : 0 <= col <= 9) by (subst col; destruct (Z.even row); lia).
  replace (row * 10 + col + 1 - 1) with (row * 10 + col) by lia.
  assert (Hdiv : (row * 10 + col) `div` 10 = row)
    by (Z.to_euclidean_division_equations; lia).
  assert (Hrem : (row * 10 + col) `rem` 10 = col)
    by (Z.to_euclidean_division_equations; lia).
  rewrite Hdiv, Hrem.
  assert (Hpar : ((row + col) `rem` 2 =? 0) = Z.even (row + col))
    by (rewrite Z.rem_mod_nonneg, Zeven_mod by lia; reflexivity).
  rewrite Hpar, Z.even_add. subst col.
  destruct (Z.even row) eqn:Er.
  - destruct (Z.even c); reflexivity.
  - replace (9 - c) with (Z.succ (2 * 4 - c)) by lia.
    rewrite Z.even_succ, <- Z.negb_even, Z.even_sub, Z.even_mul. cbn.
    destruct (Z.even c); reflexivity.
Qed.

Lemma cell_shade_by_column_witness :
  cellDark (cellNumber 90) = true /\ cellDark (cellNumber 80) = true
  /\ cellDark (cellNumber 81) = false.
Proof.
  split; [apply (cell_shade_by_column 90); lia |].
  split; [apply (cell_shade_by_column 80); lia |].
  apply (cell_shade_by_column 81); lia.
Defined.

(** Every ladder is drawn rising: the far end of its line is
    anchored at least one row (10 percent) above its foot, and both
    ends belong to squares of the board. *)
Theorem ladder_lines_rise k d :
  LADDERS !! k = Some d ->
  (ladderLine k d).2.2 + 10 <= (ladderLine k d).1.2
  /\ 1 <= k <= 100 /\ 1 <= d <= 100.
Proof.
  assert (H : map_Forall (fun k d => (ladderLine k d).2.2 + 10 <= (ladderLine k d).1.2)
                LADDERS)
    by (apply (bool_decide_unpack _); vm_compute; reflexivity).
  intros E. split; [exact (H k d E) |].
  apply ladder_lookup in E. unfold ladderOk in E. lia.
Qed.

Lemma ladder_lines_rise_witness :
  ladderLine 2 38 = ((15, 95), (25, 65))
  /\ (ladderLine 2 38).2.2 + 10 <= (ladderLine 2 38).1.2.
Proof.
  split; [reflexivity |].
  apply (ladder_lines_rise 2 38). vm_compute. reflexivity.
Defined.

(** The marks of a cell: a cell shows a snake mark exactly when its
    number is a key of the snake map, a ladder mark exactly when it is
    a key of the ladder map, never both, and the number printed after
    the sign is at least 1. *)
Theorem cell_marks num :
  (is_Some (snakeMark num) <-> is_Some (SNAKES !! num))
  /\ (is_Some (ladderMark num) <-> is_Some (LADDERS !! num))
  /\ ~ (is_Some (snakeMark num) /\ is_Some (ladderMark num))
  /\ (forall n, snakeMark num = Some n -> 1 <= n /\ SNAKES !! num = Some (num - n))
  /\ (forall n, ladderMark num = Some n -> 1 <= n /\ LADDERS !! num = Some (num + n)).
Proof.
  unfold snakeMark, ladderMark. rewrite truthy_snake, truthy_ladder.
  destruct (SNAKES !! num) as [d|] eqn:Es; destruct (LADDERS !! num) as [d'|] eqn:El;
    cbn.
  - apply snake_lookup in Es. destruct Es as (_ & _ & Es & _). congruence.
  - apply snake_lookup in Es. unfold snakeOk in Es.
    split; [split; eauto |]. split; [split; intros [? ?]; discriminate |].
    split; [intros [_ [? ?]]; discriminate |].
    split; [| intros n Hn; discriminate Hn].
    intros n Hn. injection Hn as <-. split; [lia | f_equal; lia].
  - apply ladder_lookup in El. unfold ladderOk in El.
    split; [split; intros [? ?]; discriminate |]. split; [split; eauto |].
    split; [intros [[? ?] _]; discriminate |].
    split; [intros n Hn; discriminate Hn |].
    intros n Hn. injection Hn as <-. split; [lia | f_equal; lia].
  - split; [split; intros [? ?]; discriminate |].
    split; [split; intros [? ?]; discriminate |].
    split; [intros [[? ?] _]; discriminate |].
    split; intros n Hn; discriminate Hn.
Qed.

Lemma cell_marks_witness :
  snakeMark 99 = Some 19 /\ 1 <= 19 /\ SNAKES !! 99 = Some (99 - 19).
Proof.
  assert (H : snakeMark 99 = Some 19) by (vm_compute; reflexivity).
  split; [exact H |].
  destruct (cell_marks 99) as (_ & _ & _ & Hs & _). exact (Hs 19 H).
Defined.

(** ** What the view can rely on *)

Lemma roster_insert (l : list Player) i q final :
  l !! i = Some q ->
  map (withPosition 0) (<[i := withPosition final q]> l) = map (withPosition 0) l.
Proof.
  intros Hq. change (map (withPosition 0)) with (fmap (M := list) (withPosition 0)).
  rewrite list_fmap_insert.
  apply list_insert_id. rewrite list_lookup_fmap, Hq. reflexivity.
Qed.

Lemma roster_reset (l : list Player) :
  map (withPosition 0) (map (withPosition 1) l) = map (withPosition 0) l.
Proof. rewrite map_map. apply map_ext. intros p. reflexivity. Qed.

Lemma appended_length lg es :
  es <> [] -> (1 <= length (appended lg es) <= 50)%nat.
Proof.
  destruct es as [|e es _] using rev_ind; [congruence |]. intros _.
  rewrite appended_snoc, pushEntry_length. lia.
Qed.

(** Square 100 is only ever reached by the exact roll. *)
Lemma exact_roll_wins pos roll :
  restingSquare pos -> pos <> 100 -> finalSquare pos roll = 100 -> pos + roll = 100.
Proof.
  intros Hpos Hne. unfold finalSquare, landing.
  destruct (Z.ltb_spec TOTAL_SQUARES (pos + roll)) as [Hover | Hon].
  - rewrite transition_resting by exact Hpos. cbn. lia.
  - destruct (SNAKES !! (pos + roll)) as [d|] eqn:Es;
      [| destruct (LADDERS !! (pos + roll)) as [d|] eqn:El].
    + rewrite (transition_snake _ d Es). cbn.
      apply snake_lookup in Es. unfold snakeOk in Es. lia.
    + rewrite (transition_ladder _ d Es El). cbn.
      apply ladder_lookup in El. unfold ladderOk in El. lia.
    + rewrite (transition_none _ Es El). cbn. lia.
Qed.

Lemma viewOk_mounted env : viewOk (mkApp (mounted env) None).
Proof.
  unfold viewOk. cbn [world pending]. rewrite mounted_state. cbn.
  repeat split; try reflexivity; try lia; try discriminate.
Qed.

Lemma viewOk_click env a : viewOk a -> viewOk (dispatch env a ClickRoll).
Proof.
  intros Hview. destruct a as [[g k] waiting].
  unfold dispatch, rollDice_click. cbn [world pending state].
  destruct (isRolling g || bool_decide (is_Some (winner g))) eqn:Hguard;
    [exact Hview |].
  apply orb_false_elim in Hguard. destruct Hguard as (Hroll & Hwin).
  apply bool_decide_eq_false in Hwin.
  assert (Hnone : winner g = None).
  { destruct (winner g); [exfalso; apply Hwin; eauto | reflexivity]. }
  destruct Hview as (Hroster & _ & _ & _ & Hlog & _ & _).
  cbn [world state] in Hroster, Hlog. unfold viewOk, roster in *.
  handler_unfold. cbn.
  split; [exact Hroster |]. split; [reflexivity |]. split; [reflexivity |].
  split; [intros v Hv; discriminate Hv |]. split; [exact Hlog |].
  split.
  - intros snap Hsnap. injection Hsnap as <-. split; [exact Hroster | exact Hnone].
  - intros wp Hwp. congruence.
Qed.

Lemma viewOk_reset env a : viewOk a -> viewOk (dispatch env a ClickReset).
Proof.
  intros (Hroster & Hflag & _ & _ & _ & Hpend & _).
  unfold dispatch, viewOk. cbn [world pending]. unfold roster at 1.
  change (players (state (run (resetGame env) (world a))))
    with (map (withPosition 1) (players (state (world a)))).
  split; [rewrite roster_reset; exact Hroster |].
  split; [exact Hflag |]. split; [reflexivity |].
  split; [intros v Hv; discriminate Hv |].
  split; [change (1 <= 1 <= 50)%nat; lia |].
  split.
  - intros snap Hsnap. split; [exact (proj1 (Hpend snap Hsnap)) | reflexivity].
  - intros wp Hwp. discriminate Hwp.
Qed.

Lemma viewOk_timer env a roll :
  appOk a -> viewOk a -> 1 <= roll <= 6 -> viewOk (dispatch env a (TimerDone roll)).
Proof.
  intros (Hstore & Hwait) Hview Hroll. unfold dispatch.
  destruct (pending a) as [snap|] eqn:Hpending; [| exact Hview].
  destruct Hwait as ((Hslen & Hsidx & Hsrest & Hsnot) & Hsnone).
  destruct Hstore as (Hlen & _ & _ & Hnot).
  destruct Hview as (Hroster & _ & _ & _ & _ & Hpend & _).
  destruct (Hpend snap Hpending) as (Hsroster & Hnone).
  specialize (Hnot Hnone). specialize (Hsnot Hsnone).
  rewrite Forall_lookup in Hnot, Hsnot, Hsrest.
  destruct (lookup_lt_is_Some_2 (players snap) (currentPlayerIndex snap)) as [p Hp];
    [lia |].
  destruct (lookup_lt_is_Some_2 (players (state (world a))) (currentPlayerIndex snap))
    as [q Hq]; [lia |].
  unfold viewOk. cbn [world pending]. rewrite rollDice_resume_run.
  set (w0 := mkWorld _ _).
  destruct (movePlayer_outcome env snap roll w0 p Hp)
    as (_ & Hplayers & Hwinner & _ & Hdice & Hflag & es & Hlogs & Htypes).
  change (players (state w0)) with (players (state (world a))) in Hplayers.
  change (winner (state w0)) with (winner (state (world a))) in Hwinner.
  change (gameLog (state w0)) with (gameLog (state (world a))) in Hlogs.
  rewrite (imap_active _ _ q) in Hplayers by exact Hq.
  split; [unfold roster; rewrite Hplayers, roster_insert by exact Hq; exact Hroster |].
  split; [rewrite Hflag; reflexivity |].
  split; [rewrite Hflag; intros H; discriminate H |].
  split; [rewrite Hdice; intros v Hv; injection Hv as <-; exact Hroll |].
  split.
  { rewrite Hlogs. apply appended_length. intros ->. discriminate Htypes. }
  split; [intros ? H; discriminate H |].
  intros wp Hwp. rewrite Hwinner, Hnone in Hwp.
  destruct (Z.eqb_spec (finalSquare (position p) roll) TOTAL_SQUARES) as [Hfinal | _];
    [| discriminate Hwp].
  injection Hwp as <-. unfold TOTAL_SQUARES in Hfinal.
  pose proof (exact_roll_wins _ _ (Hsrest _ _ Hp) (Hsnot _ _ Hp) Hfinal) as Hexact.
  exists (currentPlayerIndex snap), (withPosition (finalSquare (position p) roll) q).
  rewrite Hplayers.
  split; [apply list_lookup_insert_eq; eapply lookup_lt_Some; exact Hq |].
  split; [exact Hfinal |]. split.
  - assert (Hsame : map (withPosition 0) (players (state (world a)))
                    !! currentPlayerIndex snap
                    = map (withPosition 0) (players snap) !! currentPlayerIndex snap).
    { fold (roster (state (world a))). fold (roster snap).
      rewrite Hroster, Hsroster. reflexivity. }
    change (map (withPosition 0)) with (fmap (M := list) (withPosition 0)) in Hsame.
    rewrite !list_lookup_fmap, Hp, Hq in Hsame. cbn in Hsame.
    injection Hsame as Hid Hname Hcolor. unfold withPosition. cbn. congruence.
  - split; [lia |]. intros j q' Hj Hq'.
    destruct (decide (j = currentPlayerIndex snap)) as [-> | Hne]; [reflexivity |].
    rewrite list_lookup_insert_ne in Hj by congruence.
    exfalso. exact (Hnot _ _ Hj Hq').
Qed.

Lemma reachable_viewOk env a : reachable env a -> viewOk a.
Proof.
  intros Hreach. induction Hreach as [| a e Hreach IH He].
  - apply viewOk_mounted.
  - destruct e as [| | roll].
    + apply viewOk_click. exact IH.
    + apply viewOk_reset. exact IH.
    + apply viewOk_timer; [apply (reachable_appOk env); exact Hreach | exact IH | exact He].
Qed.

Lemma roster_shape g :
  roster g = roster initialState ->
  exists s1 s2,
    players g = [ mkPlayer 1 "Player 1" s1 "#8b5cf6"; mkPlayer 2 "Player 2" s2 "#f59e0b" ].
Proof.
  unfold roster.
  destruct (players g) as [|[i1 n1 s1 c1] [|[i2 n2 s2 c2] [|? ?]]]; cbn;
    intros H; try discriminate H.
  injection H as -> -> -> -> -> ->. eauto.
Qed.

Lemma getCoordinates_inj s s' :
  1 <= s <= 100 -> 1 <= s' <= 100 -> getCoordinates s = getCoordinates s' -> s = s'.
Proof.
  intros Hs Hs' E.
  rewrite <- (cellNumber_getCoordinates s Hs), <- (cellNumber_getCoordinates s' Hs').
  rewrite E. reflexivity.
Qed.

Lemma cellCentre_inj c c' : cellCentre c = cellCentre c' -> c = c'.
Proof.
  destruct c as [x y], c' as [x' y']. unfold cellCentre. cbn.
  intros H. injection H as Hx Hy. f_equal; lia.
Qed.

(** In every reachable state the players are the two the component
    starts with, in the same order, with their ids, names and colours,
    and the turn card has a player to show: the active index names
    one of them. *)
Theorem roster_is_fixed env a :
  reachable env a ->
  map player_id (players (state (world a))) = [1; 2]
  /\ map name (players (state (world a))) = ["Player 1"; "Player 2"]
  /\ map color (players (state (world a))) = ["#8b5cf6"; "#f59e0b"]
  /\ exists p, players (state (world a)) !! currentPlayerIndex (state (world a)) = Some p
       /\ turnCard (state (world a)) = Some (color p, name p, position p).
Proof.
  intros Hreach.
  destruct (reachable_appOk env a Hreach) as ((Hlen & Hidx & _) & _).
  destruct (reachable_viewOk env a Hreach) as (Hroster & _).
  destruct (roster_shape _ Hroster) as (s1 & s2 & Hplayers).
  rewrite Hplayers. repeat split.
  destruct (lookup_lt_is_Some_2 (players (state (world a)))
              (currentPlayerIndex (state (world a)))) as [p Hp]; [lia |].
  exists p. rewrite <- Hplayers. split; [exact Hp |].
  unfold turnCard. rewrite Hp. reflexivity.
Qed.

Lemma roster_is_fixed_witness :
  map position (players (state (world wonGame))) = [100; 43]
  /\ map name (players (state (world wonGame))) = ["Player 1"; "Player 2"]
  /\ turnCard (state (world wonGame)) = Some ("#8b5cf6", "Player 1", 100).
Proof.
  split; [vm_compute; reflexivity |].
  destruct (roster_is_fixed sampleEnv wonGame wonGame_reachable)
    as (_ & Hnames & _).
  split; [exact Hnames | vm_compute; reflexivity].
Defined.

(** In every reachable state the dot that marks a shared square is
    drawn on a player's token exactly when the other player's token
    is drawn at the same place, which is exactly when both stand on
    the same square. *)
Theorem overlap_badge_iff_same_place env a i j p q :
  reachable env a ->
  i <> j ->
  players (state (world a)) !! i = Some p ->
  players (state (world a)) !! j = Some q ->
  (overlapBadge (players (state (world a))) p = true <-> tokenPlace p = tokenPlace q)
  /\ (tokenPlace p = tokenPlace q <-> position p = position q).
Proof.
  intros Hreach Hij Hp Hq.
  destruct (reachable_appOk env a Hreach) as ((_ & _ & Hrest & _) & _).
  destruct (reachable_viewOk env a Hreach) as (Hroster & _).
  destruct (roster_shape _ Hroster) as (s1 & s2 & Hplayers).
  rewrite Forall_lookup in Hrest.
  pose proof (Hrest _ _ Hp) as ((Hp1 & Hp2) & _).
  pose proof (Hrest _ _ Hq) as ((Hq1 & Hq2) & _).
  unfold TOTAL_SQUARES in *.
  assert (Hplace : tokenPlace p = tokenPlace q <-> position p = position q).
  { unfold tokenPlace. split.
    - intros E. apply cellCentre_inj in E. apply getCoordinates_inj in E; [exact E | lia..].
    - intros ->. reflexivity. }
  split; [| exact Hplace]. rewrite Hplace.
  rewrite Hplayers in Hp, Hq |- *.
  destruct i as [|[|i]], j as [|[|j]]; try congruence; cbn in Hp, Hq;
    try discriminate Hp; try discriminate Hq;
    injection Hp as <-; injection Hq as <-; unfold overlapBadge; cbn;
    rewrite ?Z.eqb_refl; cbn; rewrite ?orb_false_r;
    (split; [intros E; apply Z.eqb_eq in E; congruence
            | intros E; apply Z.eqb_eq; congruence]).
Qed.

Lemma overlap_badge_iff_same_place_witness :
  overlapBadge (players (state (world firstRollWaiting)))
               (mkPlayer 1 "Player 1" 1 "#8b5cf6") = true
  <-> tokenPlace (mkPlayer 1 "Player 1" 1 "#8b5cf6")
      = tokenPlace (mkPlayer 2 "Player 2" 1 "#f59e0b").
Proof.
  apply (overlap_badge_iff_same_place sampleEnv firstRollWaiting 0%nat 1%nat
           (mkPlayer 1 "Player 1" 1 "#8b5cf6") (mkPlayer 2 "Player 2" 1 "#f59e0b")
           firstRollWaiting_reachable).
  - lia.
  - reflexivity.
  - reflexivity.
Defined.

(** In every reachable state the rolling flag is up exactly while a
    roll waits for its timer, nobody has won while a roll waits, the
    dice field shows a dash during a roll, and a dice value that is
    shown is a face of the die. *)
Theorem rolling_flag_tracks_waiting_roll env a :
  reachable env a ->
  (isRolling (state (world a)) = true <-> is_Some (pending a))
  /\ (is_Some (pending a) -> winner (state (world a)) = None)
  /\ (isRolling (state (world a)) = true -> diceText (state (world a)) = "-")
  /\ (forall v, diceValue (state (world a)) = Some v ->
        1 <= v <= 6 /\ diceText (state (world a)) = pretty v).
Proof.
  intros Hreach.
  destruct (reachable_viewOk env a Hreach) as (_ & Hflag & Hclear & Hdice & _ & Hpend & _).
  split; [rewrite Hflag; apply bool_decide_eq_true |].
  split; [intros [snap Hsnap]; exact (proj2 (Hpend snap Hsnap)) |].
  split.
  - intros Hroll. unfold diceText. rewrite (Hclear Hroll). reflexivity.
  - intros v Hv. pose proof (Hdice v Hv) as Hface. split; [exact Hface |].
    unfold diceText. rewrite Hv.
    destruct (Z.eqb_spec v 0); [lia | reflexivity].
Qed.

Lemma rolling_flag_tracks_waiting_roll_witness :
  is_Some (pending secondRollWaiting)
  /\ isRolling (state (world secondRollWaiting)) = true
  /\ diceText (state (world secondRollWaiting)) = "-".
Proof.
  assert (Hwaits : is_Some (pending secondRollWaiting)) by (vm_compute; eauto).
  destruct (rolling_flag_tracks_waiting_roll sampleEnv secondRollWaiting
              secondRollWaiting_reachable) as (Hflag & _ & Hdash & _).
  split; [exact Hwaits |].
  split; [apply Hflag; exact Hwaits | apply Hdash, Hflag; exact Hwaits].
Defined.

(** The roll button and the guard of [rollDice] agree in every state:
    the button is disabled exactly when its label is not ROLL DICE; a
    click on a disabled button changes nothing; a click on an enabled
    one raises the rolling flag, clears the dice value, leaves a roll
    waiting with the state of the click as its snapshot, and turns the
    button into a disabled one that reads ROLLING. *)
Theorem roll_button_matches_guard env w waiting :
  (rollDisabled (state w) = false <-> rollLabel (state w) = "ROLL DICE")
  /\ (rollDisabled (state w) = true ->
      dispatch env (mkApp w waiting) ClickRoll = mkApp w waiting)
  /\ (rollDisabled (state w) = false ->
      pending (dispatch env (mkApp w waiting) ClickRoll) = Some (state w)
      /\ diceValue (state (world (dispatch env (mkApp w waiting) ClickRoll))) = None
      /\ players (state (world (dispatch env (mkApp w waiting) ClickRoll)))
         = players (state w)
      /\ rollDisabled (state (world (dispatch env (mkApp w waiting) ClickRoll))) = true
      /\ rollLabel (state (world (dispatch env (mkApp w waiting) ClickRoll)))
         = "ROLLING...").
Proof.
  destruct w as [g k]. unfold rollDisabled, rollLabel, dispatch, rollDice_click.
  cbn [world pending state].
  destruct (isRolling g) eqn:Hroll; destruct (bool_decide (is_Some (winner g))) eqn:Hwin;
    cbn; (split; [split; intros H; try discriminate H; reflexivity |]);
    (split; [intros H; try discriminate H; reflexivity |]);
    intros H; try discriminate H.
  handler_unfold. cbn. repeat split.
Qed.

Lemma roll_button_matches_guard_witness :
  rollDisabled (state (mounted sampleEnv)) = false
  /\ rollLabel (state (world (dispatch sampleEnv (mkApp (mounted sampleEnv) None)
                                       ClickRoll))) = "ROLLING...".
Proof.
  assert (Hopen : rollDisabled (state (mounted sampleEnv)) = false) by reflexivity.
  split; [exact Hopen |].
  destruct (roll_button_matches_guard sampleEnv (mounted sampleEnv) None)
    as (_ & _ & Hclick).
  destruct (Hclick Hopen) as (_ & _ & _ & _ & Hlabel). exact Hlabel.
Defined.

(** In every reachable state nobody has won exactly when no player
    stands on square 100; and when a winner is recorded, exactly one
    player stands on 100, that player has the winner's id, name and
    colour (the name the modal shows), the recorded winner still
    carries the square of 94..99 they rolled from, no roll is waiting,
    and the button reads GAME OVER. *)
Theorem winner_stands_on_last_square env a :
  reachable env a ->
  (winner (state (world a)) = None
   <-> Forall (fun p => position p <> 100) (players (state (world a))))
  /\ forall wp, winner (state (world a)) = Some wp ->
       (exists i q,
          players (state (world a)) !! i = Some q
          /\ position q = 100
          /\ player_id q = player_id wp /\ name q = name wp /\ color q = color wp
          /\ winnerModal (state (world a)) = Some (name q)
          /\ forall j q', players (state (world a)) !! j = Some q' ->
               position q' = 100 -> j = i)
       /\ 94 <= position wp <= 99
       /\ pending a = None
       /\ rollLabel (state (world a)) = "GAME OVER".
Proof.
  intros Hreach.
  destruct (reachable_appOk env a Hreach) as ((_ & _ & _ & Hnot) & _).
  destruct (reachable_viewOk env a Hreach) as (_ & Hflag & _ & _ & _ & Hpend & Hwin).
  split.
  - split; [exact Hnot |]. intros Hall.
    destruct (winner (state (world a))) as [wp|] eqn:Hwp; [| reflexivity].
    destruct (Hwin wp eq_refl) as (i & q & Hq & H100 & _).
    rewrite Forall_lookup in Hall. exfalso. exact (Hall _ _ Hq H100).
  - intros wp Hwp.
    destruct (Hwin wp Hwp) as (i & q & Hq & H100 & Hsame & Hfrom & Honly).
    assert (Hnone : pending a = None).
    { destruct (pending a) as [snap|] eqn:Hsnap; [| reflexivity].
      destruct (Hpend snap eq_refl) as (_ & Hno). congruence. }
    split; [| split; [exact Hfrom | split; [exact Hnone |]]].
    + exists i, q. unfold withPosition in Hsame. injection Hsame as Hid Hname Hcolor.
      repeat split; try assumption.
      unfold winnerModal. rewrite Hwp, Hname. reflexivity.
    + unfold rollLabel. rewrite Hflag, Hnone, Hwp. reflexivity.
Qed.

Lemma winner_stands_on_last_square_witness :
  (name <$> winner (state (world wonGame))) = Some "Player 1"
  /\ pending wonGame = None
  /\ rollLabel (state (world wonGame)) = "GAME OVER".
Proof.
  split; [vm_compute; reflexivity |].
  destruct (winner_stands_on_last_square sampleEnv wonGame wonGame_reachable)
    as (_ & Hwon).
  destruct (Hwon (mkPlayer 1 "Player 1" 97 "#8b5cf6")) as (_ & _ & Hnone & Hlabel).
  - vm_compute. reflexivity.
  - split; [exact Hnone | exact Hlabel].
Defined.

(** In every reachable state the log holds at least one entry and at
    most 50. *)
Theorem reachable_log_bounds env a :
  reachable env a ->
  (1 <= length (gameLog (state (world a))) <= 50)%nat.
Proof.
  intros Hreach.
  destruct (reachable_viewOk env a Hreach) as (_ & _ & _ & _ & Hlog & _).
  exact Hlog.
Qed.

Lemma reachable_log_bounds_witness :
  length (gameLog (state (world wonGame))) = 19%nat
  /\ (1 <= length (gameLog (state (world wonGame))) <= 50)%nat.
Proof.
  split; [vm_compute; reflexivity |].
  exact (reachable_log_bounds sampleEnv wonGame wonGame_reachable).
Defined.

(** ** What a resolution leaves alone, and what a reset does not undo *)

Lemma imap_alter (l : list Player) idx final :
  imap (fun i x => if decide (i = idx) then withPosition final x else x) l
  = alter (withPosition final) idx l.
Proof.
  apply list_eq. intros i. rewrite list_lookup_imap.
  destruct (decide (i = idx)) as [-> | Hne].
  - rewrite list_lookup_alter_eq. destruct (l !! idx); cbn; [| reflexivity].
    destruct (decide (idx = idx)); [reflexivity | congruence].
  - rewrite list_lookup_alter_ne by congruence.
    destruct (l !! i); cbn; [| reflexivity].
    destruct (decide (i = idx)); [congruence | reflexivity].
Qed.

(** A resolution only moves a token: for any snapshot whose active
    index names a player and any store, the players of the store are
    the same in number, each keeps its id, name and colour, the player
    at the snapshot's active index is written to the computed square
    (if the store has a player there), every other player is left as
    it is, and neither the dice value nor the rolling flag is
    touched. *)
Theorem movePlayer_moves_only_active env snap steps w p :
  players snap !! currentPlayerIndex snap = Some p ->
  players (state (run (movePlayer env snap steps) w))
  = alter (withPosition (finalSquare (position p) steps)) (currentPlayerIndex snap)
          (players (state w))
  /\ length (players (state (run (movePlayer env snap steps) w)))
     = length (players (state w))
  /\ roster (state (run (movePlayer env snap steps) w)) = roster (state w)
  /\ (forall j, j <> currentPlayerIndex snap ->
        players (state (run (movePlayer env snap steps) w)) !! j
        = players (state w) !! j)
  /\ diceValue (state (run (movePlayer env snap steps) w)) = diceValue (state w)
  /\ isRolling (state (run (movePlayer env snap steps) w)) = isRolling (state w).
Proof.
  intros Hp.
  destruct (movePlayer_outcome env snap steps w p Hp)
    as (_ & Hplayers & _ & _ & Hdice & Hflag & _).
  rewrite imap_alter in Hplayers. unfold roster. rewrite Hplayers.
  split; [reflexivity |]. split; [apply length_alter |]. split; [| split].
  - change (map (withPosition 0)) with (fmap (M := list) (withPosition 0)).
    apply list_eq. intros j. rewrite !list_lookup_fmap.
    destruct (decide (currentPlayerIndex snap = j)) as [<- | Hne].
    + rewrite list_lookup_alter_eq.
      destruct (players (state w) !! currentPlayerIndex snap); reflexivity.
    + rewrite list_lookup_alter_ne by exact Hne. reflexivity.
  - intros j Hj. apply list_lookup_alter_ne. congruence.
  - split; [exact Hdice | exact Hflag].
Qed.

Lemma movePlayer_moves_only_active_witness :
  map position (players (state (run (movePlayer sampleEnv (state fiveToGo) 2) fiveToGo)))
  = [97; 44]
  /\ roster (state (run (movePlayer sampleEnv (state fiveToGo) 2) fiveToGo))
     = roster (state fiveToGo).
Proof.
  split; [vm_compute; reflexivity |].
  apply (movePlayer_moves_only_active sampleEnv (state fiveToGo) 2 fiveToGo
           (mkPlayer 1 "Player 1" 95 "#8b5cf6")).
  reflexivity.
Defined.

Lemma snake_tails_past_start : map_Forall (fun _ d => 2 <= d) SNAKES.
Proof. apply (bool_decide_unpack _). vm_compute. reflexivity. Qed.

Lemma finalSquare_past_start pos roll :
  restingSquare pos -> 1 <= roll <= 6 -> 2 <= finalSquare pos roll.
Proof.
  intros (Hrange & _ & _) Hroll. unfold finalSquare, landing, TOTAL_SQUARES in *.
  destruct (Z.ltb_spec 100 (pos + roll)) as [Hover | Hon].
  - destruct (SNAKES !! pos) as [d|] eqn:Es;
      [| destruct (LADDERS !! pos) as [d|] eqn:El].
    + rewrite (transition_snake _ d Es). cbn. exact (snake_tails_past_start _ _ Es).
    + rewrite (transition_ladder _ d Es El). cbn.
      apply ladder_lookup in El. unfold ladderOk in El. lia.
    + rewrite (transition_none _ Es El). cbn. lia.
  - destruct (SNAKES !! (pos + roll)) as [d|] eqn:Es;
      [| destruct (LADDERS !! (pos + roll)) as [d|] eqn:El].
    + rewrite (transition_snake _ d Es). cbn. exact (snake_tails_past_start _ _ Es).
    + rewrite (transition_ladder _ d Es El). cbn.
      apply ladder_lookup in El. unfold ladderOk in El. lia.
    + rewrite (transition_none _ Es El). cbn. lia.
Qed.

(** A reset does not cancel a roll that is waiting.  Right after the
    reset every player is on square 1, but the roll still waits and
    the button stays disabled; when the timer fires, the player who
    was active at the click is written to the square computed from
    the square they had before the reset, which is never square 1,
    while every other player stays on 1. *)
Theorem reset_does_not_cancel_waiting_roll env a snap roll p :
  reachable env a ->
  pending a = Some snap ->
  players snap !! currentPlayerIndex snap = Some p ->
  1 <= roll <= 6 ->
  let afterReset := dispatch env a ClickReset in
  let afterTimer := dispatch env afterReset (TimerDone roll) in
  Forall (fun q => position q = 1) (players (state (world afterReset)))
  /\ pending afterReset = Some snap
  /\ rollDisabled (state (world afterReset)) = true
  /\ position <$> players (state (world afterTimer)) !! currentPlayerIndex snap
     = Some (finalSquare (position p) roll)
  /\ 2 <= finalSquare (position p) roll
  /\ (forall j q, j <> currentPlayerIndex snap ->
        players (state (world afterTimer)) !! j = Some q -> position q = 1)
  /\ pending afterTimer = None.
Proof.
  intros Hreach Hpending Hp Hroll afterReset afterTimer.
  destruct (reachable_appOk env a Hreach) as ((Hlen & _) & Hwait).
  rewrite Hpending in Hwait. destruct Hwait as ((Hslen & Hsidx & Hsrest & _) & _).
  destruct (reachable_viewOk env a Hreach) as (_ & Hflag & _).
  assert (Hplayers1 : players (state (world afterReset))
                      = map (withPosition 1) (players (state (world a))))
    by reflexivity.
  assert (Hpend1 : pending afterReset = Some snap) by exact Hpending.
  split.
  { rewrite Hplayers1. apply Forall_forall. intros q Hq.
    apply list_elem_of_fmap in Hq. destruct Hq as (q0 & -> & _). reflexivity. }
  split; [exact Hpend1 |]. split.
  { unfold rollDisabled.
    change (isRolling (state (world afterReset))) with (isRolling (state (world a))).
    rewrite Hflag, Hpending. reflexivity. }
  assert (Hafter : afterTimer
                   = mkApp (run (rollDice_resume env snap roll) (world afterReset)) None).
  { unfold afterTimer, dispatch at 1. rewrite Hpend1. reflexivity. }
  rewrite Hafter. cbn [world pending]. rewrite rollDice_resume_run.
  set (w0 := mkWorld _ _).
  destruct (movePlayer_outcome env snap roll w0 p Hp) as (_ & Hplayers & _).
  change (players (state w0)) with (players (state (world afterReset))) in Hplayers.
  rewrite imap_alter, Hplayers1 in Hplayers. rewrite Hplayers.
  destruct (lookup_lt_is_Some_2 (players (state (world a))) (currentPlayerIndex snap))
    as [q Hq]; [lia |].
  rewrite Forall_lookup in Hsrest.
  split; [| split; [exact (finalSquare_past_start _ _ (Hsrest _ _ Hp) Hroll) | split]].
  - rewrite list_lookup_alter_eq, list_lookup_fmap, Hq. reflexivity.
  - intros j q' Hj Hq'. rewrite list_lookup_alter_ne in Hq' by congruence.
    rewrite list_lookup_fmap in Hq'. destruct (_ !! j); [| discriminate Hq'].
    injection Hq' as <-. reflexivity.
  - reflexivity.
Qed.

Lemma reset_does_not_cancel_waiting_roll_witness :
  pending secondRollWaiting = Some (state (world (foldl (dispatch sampleEnv)
      (mkApp (mounted sampleEnv) None) [ClickRoll; TimerDone 6])))
  /\ map position (players (state (world
       (dispatch sampleEnv (dispatch sampleEnv secondRollWaiting ClickReset)
                 (TimerDone 4))))) = [1; 5]
  /\ position <$> players (state (world
       (dispatch sampleEnv (dispatch sampleEnv secondRollWaiting ClickReset)
                 (TimerDone 4)))) !! 1%nat
     = Some (finalSquare 1 4).
Proof.
  split; [reflexivity |]. split; [vm_compute; reflexivity |].
  destruct (reset_does_not_cancel_waiting_roll sampleEnv secondRollWaiting
              (state (world (foldl (dispatch sampleEnv)
                 (mkApp (mounted sampleEnv) None) [ClickRoll; TimerDone 6])))
              4 (mkPlayer 2 "Player 2" 1 "#f59e0b")
              secondRollWaiting_reachable eq_refl eq_refl)
    as (_ & _ & _ & Hmoved & _); [lia |].
  exact Hmoved.
Defined.

(** ** Overshoot *)

Lemma resetWhileRolling_reachable : reachable sampleEnv resetWhileRolling.
Proof.
  apply reachable_foldl; [apply reach_mounted |].
  unfold winningGame. cbn [take app]. repeat constructor; cbn; lia.
Qed.

(** C1, where the code departs from it.  In a game the component can
    play, the first player stands on 97 and clicks the roll button;
    the reset button is clicked while the roll waits, which puts both
    players on square 1 with the first player to move; the timer then
    fires with a 6.  The roll overshoots (97 + 6 > 100), and its
    resolution does not leave the active player's position as it is:
    it writes 97, the square from before the reset, over the 1; the
    info entry is logged and the turn passes to the second player. *)
Theorem overshoot_after_reset_moves_player :
  reachable sampleEnv resetWhileRolling
  /\ (pending resetWhileRolling
        ≫= fun snap => position <$> players snap !! currentPlayerIndex snap) = Some 97
  /\ 97 + 6 > 100
  /\ map position (players (state (world resetWhileRolling))) = [1; 1]
  /\ currentPlayerIndex (state (world resetWhileRolling)) = 0%nat
  /\ map position
       (players (state (world (dispatch sampleEnv resetWhileRolling (TimerDone 6)))))
     = [97; 1]
  /\ winner (state (world (dispatch sampleEnv resetWhileRolling (TimerDone 6)))) = None
  /\ currentPlayerIndex
       (state (world (dispatch sampleEnv resetWhileRolling (TimerDone 6)))) = 1%nat
  /\ map message
       (gameLog (state (world (dispatch sampleEnv resetWhileRolling (TimerDone 6)))))
     = [ "Player 1 needs exactly 3 to win."; "Player 1 rolled a 6.";
         "Game reset! Player 1 goes first." ].
Proof.
  split; [exact resetWhileRolling_reachable |].
  split; [vm_compute; reflexivity |]. split; [lia |].
  repeat split; vm_compute; reflexivity.
Qed.

Lemma alter_same_position (l : list Player) idx p :
  l !! idx = Some p -> alter (withPosition (position p)) idx l = l.
Proof.
  intros Hp. apply list_eq. intros j.
  destruct (decide (idx = j)) as [<- | Hne].
  - rewrite list_lookup_alter_eq, Hp. cbn. rewrite withPosition_same. reflexivity.
  - apply list_lookup_alter_ne. exact Hne.
Qed.

(** What the resolution of an overshooting roll does in every
    reachable state, whatever happened while the roll waited: the
    player at the snapshot's active index is written to the square
    the snapshot holds for them, so the players are left as they are
    when they are still the snapshot's (no reset since the click); no
    winner is recorded; the turn passes on from the snapshot's index;
    and the log gets the move entry and the info entry on top of it. *)
Theorem overshoot_writes_snapshot_square env a snap roll p :
  reachable env a ->
  pending a = Some snap ->
  players snap !! currentPlayerIndex snap = Some p ->
  position p + roll > 100 ->
  let g := state (world a) in
  let g' := state (world (dispatch env a (TimerDone roll))) in
  players g' = alter (withPosition (position p)) (currentPlayerIndex snap) (players g)
  /\ (players g = players snap -> players g' = players g)
  /\ winner g' = None
  /\ currentPlayerIndex g' = ((currentPlayerIndex snap + 1) `mod` 2)%nat
  /\ gameLog g'
     = stamped env (S (draws (world a)))
         (name p +:+ " needs exactly " +:+ pretty (TOTAL_SQUARES - position p)
            +:+ " to win.") Info
       :: stamped env (draws (world a))
            (name p +:+ " rolled a " +:+ pretty roll +:+ ".") Move
       :: take 48 (gameLog g).
Proof.
  intros Hreach Hpending Hp Hover g g'.
  destruct (reachable_appOk env a Hreach) as (_ & Hwait).
  rewrite Hpending in Hwait.
  destruct Hwait as ((Hslen & _ & Hsrest & Hsnot) & Hsnone).
  destruct (reachable_viewOk env a Hreach) as (_ & _ & _ & _ & _ & Hpend & _).
  destruct (Hpend snap Hpending) as (_ & Hnone).
  rewrite Forall_lookup in Hsrest. specialize (Hsnot Hsnone).
  rewrite Forall_lookup in Hsnot.
  pose proof (Hsrest _ _ Hp) as Hrest. pose proof (Hsnot _ _ Hp) as Hne.
  assert (Hg' : g' = state (run (rollDice_resume env snap roll) (world a))).
  { unfold g', dispatch. rewrite Hpending. reflexivity. }
  rewrite Hg', rollDice_resume_run. set (w0 := mkWorld _ _).
  destruct (movePlayer_outcome env snap roll w0 p Hp)
    as (_ & Hplayers & Hwinner & Hindex & _).
  pose proof (movePlayer_log env snap roll w0 p Hp) as Hlog.
  change (players (state w0)) with (players g) in Hplayers.
  change (winner (state w0)) with (winner g) in Hwinner.
  change (gameLog (state w0)) with (gameLog g) in Hlog.
  change (draws w0) with (draws (world a)) in Hlog.
  assert (Hfinal : finalSquare (position p) roll = position p).
  { unfold finalSquare. rewrite landing_overshoot by exact Hover.
    rewrite transition_resting by exact Hrest. reflexivity. }
  assert (Hnot100 : (position p =? TOTAL_SQUARES) = false)
    by (apply Z.eqb_neq; exact Hne).
  assert (Hlt : (TOTAL_SQUARES <? position p + roll) = true)
    by (apply Z.ltb_lt; unfold TOTAL_SQUARES; lia).
  rewrite Hfinal, Hnot100 in Hwinner, Hindex. rewrite imap_alter, Hfinal in Hplayers.
  unfold resolutionEntries, resolutionRequests in Hlog.
  rewrite Hfinal, Hnot100, Hlt, landing_overshoot, transition_resting in Hlog
    by assumption.
  split; [exact Hplayers |]. split.
  { intros Hsame. rewrite Hplayers, Hsame. apply alter_same_position. exact Hp. }
  split; [rewrite Hwinner; exact Hnone |].
  split; [rewrite Hindex, Hslen; reflexivity |]. exact Hlog.
Qed.

Lemma lastRollWaiting_reachable : reachable sampleEnv lastRollWaiting.
Proof.
  apply reachable_foldl; [apply reach_mounted |].
  unfold winningGame. cbn [take app]. repeat constructor; cbn; lia.
Qed.

Lemma overshoot_writes_snapshot_square_witness :
  (pending lastRollWaiting
     ≫= fun snap => position <$> players snap !! currentPlayerIndex snap) = Some 97
  /\ 97 + 6 > 100
  /\ map position (players (state (world lastRollWaiting))) = [97; 43]
  /\ map position
       (players (state (world (dispatch sampleEnv lastRollWaiting (TimerDone 6)))))
     = [97; 43]
  /\ map message
       (take 2 (gameLog (state (world (dispatch sampleEnv lastRollWaiting (TimerDone 6))))))
     = [ "Player 1 needs exactly 3 to win."; "Player 1 rolled a 6." ]
  /\ currentPlayerIndex (state (world (dispatch sampleEnv lastRollWaiting (TimerDone 6))))
     = ((0 + 1) `mod` 2)%nat.
Proof.
  split; [vm_compute; reflexivity |]. split; [lia |].
  split; [vm_compute; reflexivity |]. split; [vm_compute; reflexivity |].
  split; [vm_compute; reflexivity |].
  assert (Hsnap : exists snap, pending lastRollWaiting = Some snap
            /\ currentPlayerIndex snap = 0%nat
            /\ players snap !! currentPlayerIndex snap
               = Some (mkPlayer 1 "Player 1" 97 "#8b5cf6")).
  { vm_compute. eexists. repeat split. }
  destruct Hsnap as (snap & Hpending & Hidx & Hp).
  destruct (overshoot_writes_snapshot_square sampleEnv lastRollWaiting snap 6
              (mkPlayer 1 "Player 1" 97 "#8b5cf6") lastRollWaiting_reachable
              Hpending Hp)
    as (_ & _ & _ & Hturn & _); [cbn; lia |].
  rewrite Hturn, Hidx. reflexivity.
Defined.
